(** * Compilation-command resolution and execution pipeline (compdb.ts)

    A shallow embedding of [src/compdb.ts]: the argument splitter, the
    command reconstruction, the compilation database with its registry and
    reload handler, the c++filt locator and the cancellable compiler ->
    c++filt relay, followed by the properties established about them. *)

From Stdlib Require Import NArith Ascii String.
From stdpp Require Import base option list gmap.

Open Scope N_scope.
Open Scope nat_scope.

(** ** JavaScript strings

    A JavaScript string is a sequence of UTF-16 code units.  [length],
    [slice], [replace], [startsWith] and [endsWith] count code units, whereas
    [for (let ch of str)] walks code points: a high surrogate followed by a
    low surrogate is delivered as one two-unit [ch]. *)
Module JS.

Abbreviation jsstring := (list N).

(** Code units of an ASCII literal. *)
Definition js (s : string) : jsstring :=
  map N_of_ascii (list_ascii_of_string s).
Arguments js s%_string.

(** The double quote, which a literal cannot hold undoubled. *)
Definition dquote : jsstring := [34%N].

Definition isHighSurrogate (u : N) : bool := (55296 <=? u)%N && (u <=? 56319)%N.
Definition isLowSurrogate (u : N) : bool := (56320 <=? u)%N && (u <=? 57343)%N.

(** The values produced by the string iterator. *)
Fixpoint codePoints (s : jsstring) : list jsstring :=
  match s with
  | [] => []
  | u :: rest =>
      match rest with
      | v :: rest' =>
          if isHighSurrogate u && isLowSurrogate v
          then [u; v] :: codePoints rest'
          else [u] :: codePoints rest
      | [] => [[u]]
      end
  end.

(** [str.slice(a, b)] for non-negative indices. *)
Definition slice (s : jsstring) (a b : nat) : jsstring := take (b - a) (drop a s).

(** [s.startsWith(p)] *)
Fixpoint startsWith (p s : jsstring) : bool :=
  match p, s with
  | [], _ => true
  | _ :: _, [] => false
  | a :: p', b :: s' => bool_decide (a = b) && startsWith p' s'
  end.

(** [s.endsWith(p)] *)
Definition endsWith (p s : jsstring) : bool :=
  bool_decide (length p <= length s) && startsWith p (drop (length s - length p) s).

(** [s.replace(pat, repl)] with a string pattern: the first occurrence of
    [pat] (searching from the left) is replaced.  Both call sites pass a
    replacement without [$], so no substitution pattern is expanded. *)
Fixpoint replace (pat repl s : jsstring) : jsstring :=
  if startsWith pat s then repl ++ drop (length pat) s
  else match s with
       | [] => []
       | c :: s' => c :: replace pat repl s'
       end.

(** [a.join(sep)] *)
Fixpoint join (sep : jsstring) (a : list jsstring) : jsstring :=
  match a with
  | [] => []
  | [x] => x
  | x :: rest => x ++ sep ++ join sep rest
  end.

(** White space and line terminators, the characters [trimStart] strips. *)
Definition isWhiteSpace (u : N) : bool :=
  bool_decide (u ∈ [9; 10; 11; 12; 13; 32; 160; 5760; 8232; 8233; 8239; 8287;
                    12288; 65279]%N)
  || ((8192 <=? u)%N && (u <=? 8202)%N).

(** [s.trimStart()] *)
Fixpoint trimStart (s : jsstring) : jsstring :=
  match s with
  | u :: rest => if isWhiteSpace u then trimStart rest else s
  | [] => []
  end.

End JS.
Import JS.

(** ** ArgvSplitter: [splitWhitespace] *)

Record SplitState := mkSplitState {
  quoteChar : option jsstring;
  shouldEscape : bool;
  strs : list jsstring;
  i : nat;
  strStart : nat
}.

(** The switch of the loop body, for one [ch] of [str]; [i++] is done by
    [splitBody]. *)
Definition splitSwitch (str : jsstring) (st : SplitState) (ch : jsstring) : SplitState :=
  let '(mkSplitState q e ss i0 s0) := st in
  if decide (ch = js "\") then mkSplitState q (negb e) ss i0 s0
  else if decide (ch = js "'") then
    if negb e then
      if decide (q = Some (js "'")) then mkSplitState None e ss i0 s0
      else mkSplitState (Some (js "'")) e ss i0 s0
    else st
  else if decide (ch = dquote) then
    if negb e then
      if decide (q = Some dquote) then mkSplitState None e ss i0 s0
      else mkSplitState (Some dquote) e ss i0 s0
    else st
  else if decide (ch = js " ") then
    match q with
    | None =>
        let piece := slice str s0 i0 in
        let ss' := if bool_decide (0 < length piece) then ss ++ [piece] else ss in
        mkSplitState q e ss' i0 (i0 + 1)
    | Some _ => st
    end
  else st.

Definition splitBody (str : jsstring) (st : SplitState) (ch : jsstring) : SplitState :=
  let st' := splitSwitch str st ch in
  mkSplitState (quoteChar st') (shouldEscape st') (strs st') (i st' + 1) (strStart st').

Definition splitInit : SplitState := mkSplitState None false [] 0 0.

Definition splitLoop (str : jsstring) : SplitState :=
  fold_left (splitBody str) (codePoints str) splitInit.

Definition splitWhitespace (str : jsstring) : list jsstring :=
  let st := splitLoop str in
  let piece := slice str (strStart st) (i st) in
  if bool_decide (0 < length piece) then strs st ++ [piece] else strs st.


(** ** CommandReconstructor: [constructCompileCommand] *)

(** [arr.filter(cb)] where the callback reads and writes a captured variable:
    [cb st x] returns the verdict and the variable's new value. *)
Fixpoint filterStateful {A S : Type} (cb : S -> A -> bool * S) (st : S) (arr : list A) : list A :=
  match arr with
  | [] => []
  | x :: rest =>
      let '(keep, st') := cb st x in
      if keep then x :: filterStateful cb st' rest else filterStateful cb st' rest
  end.

(** The captured variable after the callback has seen all of [arr]. *)
Fixpoint filterFinal {A S : Type} (cb : S -> A -> bool * S) (st : S) (arr : list A) : S :=
  match arr with
  | [] => st
  | x :: rest => filterFinal cb (snd (cb st x)) rest
  end.

(** The arrow function passed to [args.filter]; the state is [isOutfile]. *)
Definition outfileFilter (isOutfile : bool) (arg : jsstring) : bool * bool :=
  if negb isOutfile then
    let isOutfile' := bool_decide (arg = js "-o") in
    (if isOutfile' then false
     else bool_decide (arg ≠ js "-c") && bool_decide (arg ≠ js "-g"),
     isOutfile')
  else (false, false).

(** [args[0] = directory + '/' + args[0]]: on an empty array the read gives
    [undefined], which concatenates as the text "undefined", and the write
    extends the array. *)
Definition setFirst (directory : jsstring) (args : list jsstring) : list jsstring :=
  match args with
  | [] => [directory ++ js "/" ++ js "undefined"]
  | a :: rest => (directory ++ js "/" ++ a) :: rest
  end.

(** [if (command.length > 0) args = splitWhitespace(command)] *)
Definition effectiveArgs (command : jsstring) (args : list jsstring) : list jsstring :=
  if bool_decide (0 < length command) then splitWhitespace command else args.

Definition constructCompileCommand (command : jsstring) (args : list jsstring)
    (directory : jsstring) : list jsstring :=
  let args := effectiveArgs command args in
  let args := setFirst directory args in
  filterStateful outfileFilter false args.

(** ** CompileCommand and the host environment *)

Record CompileCommand := mkCompileCommand {
  directory : jsstring;
  command : jsstring;
  file : jsstring;
  arguments : list jsstring
}.

(** A [Uri] object: its identity as an object and its location text. *)
Record Uri := mkUri {
  uri_ref : nat;
  uri_path : jsstring;
  fsPath : jsstring
}.

(** The result of [Path.parse]. *)
Record ParsedPath := mkParsedPath {
  pp_dir : jsstring;
  pp_name : jsstring;
  pp_ext : jsstring
}.

(** What [resolvePath] asks of the editor and of Node: the [fsPath] of
    [workspace.getWorkspaceFolder(uri)] ([None] for [undefined]), the same
    for [Uri.file(path)], [Path.relative], [Path.sep], [Path.normalize], and
    the text that [String.prototype.replace] makes of the member of
    [Object.prototype] with a given name ([None] when there is no such
    member), which the lookup [variables[varName]] finds when the object
    literal has no key of that name. *)
Record Workspace := mkWorkspace {
  getWorkspaceFolder : Uri -> option jsstring;
  getWorkspaceFolderOfFile : jsstring -> option jsstring;
  Path_relative : jsstring -> jsstring -> jsstring;
  Path_sep : jsstring;
  Path_normalize : jsstring -> jsstring;
  inheritedProperty : jsstring -> option jsstring
}.

(** Library and configuration functions the module calls but does not
    define: the value of the [compilerexplorer.compilationDirectory]
    setting, that is
    [workspace.getConfiguration('compilerexplorer').get('compilationDirectory', '${workspaceFolder}')],
    the editor's workspace, the path of [workspace.workspaceFolders[0]],
    [JSON.parse] followed by the cast to [CompileCommand[]] ([None] when it
    throws), the location computed by
    [Uri.joinPath(Uri.parse(dir), segment)], Node's [Path] functions and
    [splitLines] of [./utils]. *)
Record Host := mkHost {
  compilationDirectory : jsstring;
  workspace : Workspace;
  workspaceFolder : jsstring;
  JSON_parse : jsstring -> option (list CompileCommand);
  joinedLocation : jsstring -> jsstring -> jsstring;
  Path_parse : jsstring -> ParsedPath;
  Path_join : list jsstring -> jsstring;
  Path_resolve : jsstring -> jsstring -> jsstring;
  splitLines : jsstring -> list jsstring
}.

(** The file system as one operation sees it: [workspace.fs.readFile]
    (decoded; [None] when the read fails), [fs.readdir] ([None] when it
    throws), [existsSync], and the text printed by a successful [which]. *)
Record Disk := mkDisk {
  readFile : jsstring -> option jsstring;
  readdir : jsstring -> option (list jsstring);
  existsSync : jsstring -> bool;
  which : jsstring -> option jsstring
}.

(** ** [resolvePath] *)

(** The operand of [||]: [undefined] and the empty string are falsy. *)
Definition orEmpty (v : option jsstring) : jsstring :=
  match v with
  | Some (c :: s) => c :: s
  | _ => []
  end.

(** [variables[varName]]; [None] is [undefined]. *)
Definition variables (host : Host) (ws : Workspace) (workspacePath path : jsstring)
    (varName : jsstring) : option jsstring :=
  if decide (varName = js "workspaceFolder") then Some workspacePath
  else if decide (varName = js "workspaceFolderBasename")
       then Some (pp_name (Path_parse host workspacePath))
  else if decide (varName = js "file") then Some path
  else if decide (varName = js "fileWorkspaceFolder")
       then Some (orEmpty (getWorkspaceFolderOfFile ws path))
  else if decide (varName = js "relativeFile") then Some (Path_relative ws workspacePath path)
  else if decide (varName = js "pathSeparator") then Some (Path_sep ws)
  else inheritedProperty ws varName.

(** The code units that [.] does not match. *)
Definition isLineTerminator (u : N) : bool :=
  (u =? 10)%N || (u =? 13)%N || (u =? 8232)%N || (u =? 8233)%N.

(** [(.*?)\}] at the start of [s]: the units before the first [}], if no
    line terminator stands among them. *)
Fixpoint closing (s : jsstring) : option jsstring :=
  match s with
  | [] => None
  | c :: s' =>
      if (c =? 125)%N then Some []
      else if isLineTerminator c then None
      else cons c <$> closing s'
  end.

(** [variablesRe] at the start of [s]: the captured group of a match. *)
Definition matchVariable (s : jsstring) : option jsstring :=
  match s with
  | 36%N :: 123%N :: rest => closing rest
  | _ => None
  end.

(** [path.replace(variablesRe, callback)]: the matches are found from left
    to right, each search starting behind the match before it; [skip]
    counts the units of the current match that are still to be passed
    over.  The callback is given the match and the captured group. *)
Fixpoint replaceVariables (callback : jsstring -> jsstring -> jsstring) (skip : nat)
    (s : jsstring) : jsstring :=
  match s with
  | [] => []
  | c :: s' =>
      match skip with
      | S skip' => replaceVariables callback skip' s'
      | O =>
          match matchVariable s with
          | Some varName =>
              callback (js "${" ++ varName ++ js "}") varName
              ++ replaceVariables callback (length varName + 2) s'
          | None => c :: replaceVariables callback 0 s'
          end
      end
  end.

(** [resolvePath]; [None] is the [TypeError] of [Path.parse(undefined)],
    thrown when the source file lies in no workspace folder. *)
Definition resolvePath (host : Host) (ws : Workspace) (path : jsstring) (srcUri : Uri)
    : option jsstring :=
  workspacePath ← getWorkspaceFolder ws srcUri;
  let resolvedPath :=
    replaceVariables
      (λ match_ varName,
         match variables host ws workspacePath path varName with
         | Some value => value
         | None => match_
         end) 0 path in
  Some (Path_normalize ws resolvedPath).

(** ** CompilationDatabase: loading and lookup *)

(** One iteration of the loop of [preprocess]. *)
Definition preprocessEntry (ccommand : CompileCommand) : CompileCommand :=
  let args := constructCompileCommand (command ccommand) (arguments ccommand)
                                      (directory ccommand) in
  let args := filter (λ arg, arg ≠ file ccommand) args in
  mkCompileCommand (directory ccommand) [] (file ccommand) args.

Definition preprocess (commands : list CompileCommand) : list CompileCommand :=
  map preprocessEntry commands.

(** The loop of [load] that fills the [Map]: later entries overwrite. *)
Definition indexByFile (commands : list CompileCommand) : gmap jsstring CompileCommand :=
  fold_left (λ ccommands command, <[file command := command]> ccommands) commands ∅.

(** [CompilationDatabase.load]; [None] is a rejected promise. *)
Definition load (host : Host) (disk : Disk) (compileCommandsFile : Uri)
    : option (gmap jsstring CompileCommand) :=
  compileCommands ← readFile disk (uri_path compileCommandsFile);
  commands ← JSON_parse host compileCommands;
  Some (indexByFile (preprocess commands)).

Record CompilationDatabase := mkCompilationDatabase {
  compileCancellationTokenSource : option nat;
  compileCommandsFile : Uri;
  commands : gmap jsstring CompileCommand;
  cxxFiltExeCache : gmap jsstring jsstring;
  watcher : bool
}.

(** [get]; the outer [None] is the [TypeError] that [resolvePath] throws,
    the inner one the answer [undefined] of [Map.get]. *)
Definition get (host : Host) (srcUri : Uri) (this : CompilationDatabase)
    : option (option CompileCommand) :=
  buildDirectory ← resolvePath host (workspace host) (compilationDirectory host) srcUri;
  let relativeFp := replace (buildDirectory ++ js "/") [] (fsPath srcUri) in
  Some (commands this !! relativeFp).

(** ** DemanglerLocator: [findCxxFiltExe] and its cache *)

Definition cxxfiltExe : jsstring := js "c++filt".

(** The chain of [replace] calls on [parsed.name]. *)
Definition rewriteName (name : jsstring) : jsstring :=
  replace (js "cc") cxxfiltExe
    (replace (js "c++") cxxfiltExe
      (replace (js "gcc") cxxfiltExe
        (replace (js "g++") cxxfiltExe
          (replace (js "clang") cxxfiltExe
            (replace (js "clang++") cxxfiltExe name))))).

(** [checkStdErr] on the process of [which], which is spawned with the
    stdio setting [['ignore', 'pipe', 'ignore']]: [which.stderr] is [null],
    and the [for await] over it throws a [TypeError] before anything else
    happens.  [None] is that throw. *)
Definition checkStdErrOfWhich : option bool := None.

(** [findExecutablePath]: the text of [which.stdout] is read, then
    [checkStdErr(which)] throws; the [catch] kills the process and the
    function returns [undefined], whatever was printed. *)
Definition findExecutablePath (host : Host) (disk : Disk) (exe : jsstring) : option jsstring :=
  let resolvedPath := default [] (which disk exe) in
  match checkStdErrOfWhich with
  | Some false => Some (pp_dir (Path_parse host resolvedPath))
  | Some true => None
  | None => None
  end.

(** The inner [findExePath]; the outer [None] is a throwing [readdir]. *)
Definition findExePath (host : Host) (disk : Disk) (parsed : ParsedPath)
    (dir : option jsstring) : option (option jsstring) :=
  match dir with
  | Some d =>
      files ← readdir disk d;
      Some (Path_resolve host d <$> List.find (endsWith (cxxfiltExe ++ pp_ext parsed)) files)
  | None => Some None
  end.

(** [findCxxFiltExe]; [None] is a rejected promise. *)
Definition findCxxFiltExe (host : Host) (disk : Disk) (compExe : jsstring) : option jsstring :=
  let parsed := Path_parse host compExe in
  found ← (if bool_decide (length (pp_dir parsed) = 0)
           then findExePath host disk parsed (findExecutablePath host disk compExe)
           else findExePath host disk parsed (Some (pp_dir parsed)));
  match found with
  | Some cxxfilt => Some cxxfilt
  | None =>
      let cxxfilt := Path_join host [pp_dir parsed; rewriteName (pp_name parsed); pp_ext parsed] in
      Some (if existsSync disk cxxfilt then cxxfilt else cxxfiltExe)
  end.

(** [getCxxFiltExe]: the answer and the cache afterwards. *)
Definition getCxxFiltExe (host : Host) (disk : Disk) (compExe : jsstring)
    (cache : gmap jsstring jsstring) : option jsstring * gmap jsstring jsstring :=
  match cache !! compExe with
  | Some exe => (Some exe, cache)
  | None =>
      match findCxxFiltExe host disk compExe with
      | Some exe => (Some exe, <[compExe := exe]> cache)
      | None => (None, cache)
      end
  end.

(** The rule of the specification for step 3, for comparison: the first
    fragment of the list that occurs in the name is substituted, and only
    that one. *)
Fixpoint occursIn (pat s : jsstring) : bool :=
  startsWith pat s || match s with [] => false | _ :: s' => occursIn pat s' end.

Definition compilerFragments : list jsstring :=
  [js "clang++"; js "clang"; js "g++"; js "gcc"; js "c++"; js "cc"].

Definition substituteFirstFragment (name : jsstring) : jsstring :=
  match List.find (λ frag, occursIn frag name) compilerFragments with
  | Some frag => replace frag cxxfiltExe name
  | None => name
  end.

(** ** The object store

    [CompilationDatabase] instances, [Uri] objects and cancellation token
    sources are objects with identity; the static [compdbs] is a
    [Map<Uri, CompilationDatabase>], whose keys are compared by object
    identity.  A child process is known by its position in [procs], a call
    of [compile] by its position in [calls]. *)

Record Proc := mkProc {
  proc_command : jsstring;
  proc_args : list jsstring;
  proc_cwd : option jsstring;
  stdin : list jsstring;
  stdinEnded : bool;
  killed : bool
}.

Inductive Exn :=
  | NoWorkspaceFolder               (* the TypeError thrown by resolvePath *)
  | CannotFindCommand (src : Uri)   (* "cannot find compilation command " + src *)
  | OperationCancelled              (* "operation cancelled" *)
  | CompilationFailed               (* "compilation failed" *)
  | LocateRejected                  (* getCxxFiltExe rejected *)
  | InvalidArgument.                (* compileArguments[0] is undefined *)

(** Where [checkStdErr] is suspended. *)
Inductive CheckPc :=
  | ReadStderr (stderr : jsstring)  (* for await (chunk of process.stderr) *)
  | AwaitExit.                      (* await onExit(process) *)

(** Where the [try] block of [runCompiler] is suspended. *)
Inductive Phase :=
  | RelayCxx                                  (* for await (chunk of cxx.stdout) *)
  | CheckCxx (c : CheckPc)                    (* await this.checkStdErr(cxx) *)
  | CollectFilt (asm : jsstring)              (* for await (chunk of cxxfilt.stdout) *)
  | CheckFilt (asm : jsstring) (c : CheckPc). (* await this.checkStdErr(cxxfilt) *)

Record Frame := mkFrame {
  ctok : nat;
  cxx : nat;
  cxxfilt : nat;
  phase : Phase
}.

Inductive CallState :=
  | Locating (ctokSource : nat) (ccommand : CompileCommand) (customCommand : list jsstring)
                                    (* await this.getCxxFiltExe(compileArguments[0]) *)
  | Relaying (f : Frame)
  | Resolved (asm : jsstring)
  | Rejected (e : Exn).

Record Call := mkCall {
  call_this : nat;
  call_state : CallState
}.

(** What [checkStdErr] does to the output channel.  The diagnostic lines
    that the other functions and the ['data'] listeners append are not
    recorded. *)
Inductive OutputEvent :=
  | AppendLine (line : jsstring)
  | Show.

Record World := mkWorld {
  nextRef : nat;
  tokens : list bool;
  instances : gmap nat CompilationDatabase;
  compdbs : gmap nat nat;
  procs : list Proc;
  calls : list Call;
  channel : list OutputEvent
}.

Definition emptyWorld : World := mkWorld 0 [] ∅ ∅ [] [] [].

Definition set_nextRef (n : nat) (w : World) : World :=
  mkWorld n (tokens w) (instances w) (compdbs w) (procs w) (calls w) (channel w).
Definition set_tokens (ts : list bool) (w : World) : World :=
  mkWorld (nextRef w) ts (instances w) (compdbs w) (procs w) (calls w) (channel w).
Definition set_instances (m : gmap nat CompilationDatabase) (w : World) : World :=
  mkWorld (nextRef w) (tokens w) m (compdbs w) (procs w) (calls w) (channel w).
Definition set_compdbs (m : gmap nat nat) (w : World) : World :=
  mkWorld (nextRef w) (tokens w) (instances w) m (procs w) (calls w) (channel w).
Definition set_procs (ps : list Proc) (w : World) : World :=
  mkWorld (nextRef w) (tokens w) (instances w) (compdbs w) ps (calls w) (channel w).
Definition set_calls (cs : list Call) (w : World) : World :=
  mkWorld (nextRef w) (tokens w) (instances w) (compdbs w) (procs w) cs (channel w).
Definition set_channel (ch : list OutputEvent) (w : World) : World :=
  mkWorld (nextRef w) (tokens w) (instances w) (compdbs w) (procs w) (calls w) ch.

(** Field writes on an instance. *)
Definition withTokenSource (v : option nat) (db : CompilationDatabase) : CompilationDatabase :=
  mkCompilationDatabase v (compileCommandsFile db) (commands db) (cxxFiltExeCache db) (watcher db).
Definition withCommands (m : gmap jsstring CompileCommand) (db : CompilationDatabase)
    : CompilationDatabase :=
  mkCompilationDatabase (compileCancellationTokenSource db) (compileCommandsFile db) m
                        (cxxFiltExeCache db) (watcher db).
Definition withCache (c : gmap jsstring jsstring) (db : CompilationDatabase)
    : CompilationDatabase :=
  mkCompilationDatabase (compileCancellationTokenSource db) (compileCommandsFile db)
                        (commands db) c (watcher db).
Definition withWatcher (b : bool) (db : CompilationDatabase) : CompilationDatabase :=
  mkCompilationDatabase (compileCancellationTokenSource db) (compileCommandsFile db)
                        (commands db) (cxxFiltExeCache db) b.

(** [source.cancel()] and [token.isCancellationRequested]. *)
Definition cancel (t : nat) (w : World) : World := set_tokens (<[t := true]> (tokens w)) w.
Definition isCancellationRequested (t : nat) (w : World) : bool :=
  default false (tokens w !! t).

(** [this.compileCancellationTokenSource?.cancel()] *)
Definition cancelCurrent (db : CompilationDatabase) (w : World) : World :=
  match compileCancellationTokenSource db with
  | Some t => cancel t w
  | None => w
  end.

(** ** The registry: [CompilationDatabase.for], the watcher, [dispose] *)

(** [Uri.joinPath(Uri.parse(buildDirectory), segment)]: [parse] and
    [joinPath] each construct a [Uri] object. *)
Definition Uri_joinPath_parse (host : Host) (buildDirectory segment : jsstring) (w : World)
    : Uri * World :=
  let parsed := nextRef w in
  let joined := S parsed in
  let location := joinedLocation host buildDirectory segment in
  (mkUri joined location location, set_nextRef (S joined) w).

(** [dispose] *)
Definition dispose (this : nat) (w : World) : World :=
  match instances w !! this with
  | Some db =>
      let w := cancelCurrent db w in
      set_instances (<[this := withWatcher false (withCommands ∅ db)]> (instances w)) w
  | None => w
  end.

(** [new CompilationDatabase(compileCommandsFile, commands)] *)
Definition newCompilationDatabase (compileCommandsFile : Uri)
    (commands : gmap jsstring CompileCommand) (w : World) : nat * World :=
  let this := nextRef w in
  (this,
   set_instances (<[this := mkCompilationDatabase None compileCommandsFile commands ∅ true]>
                    (instances w))
                 (set_nextRef (S this) w)).

(** [CompilationDatabase.for]; the answer [None] is a rejected promise: the
    [TypeError] of [resolvePath], thrown before any [Uri] is built, or the
    rejection of [load]. *)
Definition for_ (host : Host) (disk : Disk) (srcUri : Uri) (w : World) : option nat * World :=
  match resolvePath host (workspace host) (compilationDirectory host) srcUri with
  | None => (None, w)
  | Some buildDirectory =>
      let '(compileCommandsFile, w) :=
        Uri_joinPath_parse host buildDirectory (js "compile_commands.json") w in
      match compdbs w !! uri_ref compileCommandsFile with
      | Some compdb => (Some compdb, w)
      | None =>
          match load host disk compileCommandsFile with
          | None => (None, w)
          | Some commands =>
              let '(compdb, w) := newCompilationDatabase compileCommandsFile commands w in
              (Some compdb,
               set_compdbs (<[uri_ref compileCommandsFile := compdb]> (compdbs w)) w)
          end
      end
  end.

(** The handler of [watcher.onDidChange]: the field is written when the
    awaited [load] has resolved, and not at all when it rejects. *)
Definition onDidChange (host : Host) (disk : Disk) (this : nat) (w : World) : World :=
  match instances w !! this with
  | Some db =>
      if watcher db then
        match load host disk (compileCommandsFile db) with
        | Some commands => set_instances (<[this := withCommands commands db]> (instances w)) w
        | None => w
        end
      else w
  | None => w
  end.


(** ** CompilationPipeline: [compile], [runCompiler], [checkStdErr], [onExit]

    The asynchronous functions are run one suspension point at a time: an
    [Event] is what the event loop delivers to a suspended call, and [step]
    runs that call up to its next [await]. *)

(** The event that settles the promise of [onExit]: ['exit'] with its code
    ([None] is [null], a process ended by a signal) or ['error']. *)
Inductive ExitEvent :=
  | Exited (code : option Z)
  | ErrorEvent.

(** [onExit]: [Some code] resolves, [None] rejects. *)
Definition onExit (e : ExitEvent) : option (option Z) :=
  match e with
  | Exited code => Some code
  | ErrorEvent => None
  end.

(** Truthiness of an exit code, as tested by [if (await onExit(process))]. *)
Definition truthy (code : option Z) : bool :=
  match code with
  | Some z => negb (z =? 0)%Z
  | None => false
  end.

Inductive ProcEvent :=
  | StderrItem (item : option jsstring)   (* a chunk, or the end of the stream *)
  | ExitItem (e : ExitEvent).

(** [checkStdErr], resumed at [pc] by [ev]: either the next suspension point
    or the returned boolean, and the output channel afterwards.  An event
    that is not awaited changes nothing. *)
Definition checkStdErr (pc : CheckPc) (ev : ProcEvent) (channel : list OutputEvent)
    : (CheckPc + bool) * list OutputEvent :=
  match pc, ev with
  | ReadStderr stderr, StderrItem (Some chunk) => (inl (ReadStderr (stderr ++ chunk)), channel)
  | ReadStderr stderr, StderrItem None =>
      (inl AwaitExit,
       if bool_decide (0 < length stderr) then channel ++ [AppendLine stderr; Show]
       else channel)
  | AwaitExit, ExitItem e =>
      match onExit e with
      | Some code => (inr (negb (truthy code)), channel)
      | None => (inr false, channel)
      end
  | _, _ => (inl pc, channel)
  end.

(** The filter and join at the end of [runCompiler]. *)
Definition postprocess (host : Host) (asm : jsstring) : jsstring :=
  join [10%N]
    (List.filter
       (λ line, let line := trimStart line in
                negb (startsWith (js "#") line) && negb (startsWith (js ";") line))
       (splitLines host asm)).

(** The token rewritten by [args.map]. *)
Definition bazelToken : jsstring :=
  js "-D" ++ dquote ++ js "BAZEL_CURRENT_REPOSITORY=" ++ dquote ++ dquote ++ dquote.
Definition bazelTokenFixed : jsstring :=
  js "-DBAZEL_CURRENT_REPOSITORY=" ++ dquote ++ dquote.

Definition compilerArgs (host : Host) (ccommand : CompileCommand)
    (compileArguments : list jsstring) : list jsstring :=
  map (λ item, if decide (item = bazelToken) then bazelTokenFixed else item)
      (drop 1 compileArguments
       ++ [workspaceFolder host ++ js "/" ++ file ccommand; js "-g"; js "-S"; js "-o"; js "-"]).

Inductive Event :=
  | Compile (this : nat) (src : Uri) (customCommand : list jsstring)
  | Located (r : nat)
  | CxxStdout (r : nat) (item : option jsstring)
  | CxxStderr (r : nat) (item : option jsstring)
  | CxxExit (r : nat) (e : ExitEvent)
  | FiltStdout (r : nat) (item : option jsstring)
  | FiltStderr (r : nat) (item : option jsstring)
  | FiltExit (r : nat) (e : ExitEvent)
  | CancelRequested (r : nat).

Definition setCall (r : nat) (this : nat) (st : CallState) (w : World) : World :=
  set_calls (<[r := mkCall this st]> (calls w)) w.

Definition setPhase (r : nat) (this : nat) (f : Frame) (ph : Phase) (w : World) : World :=
  setCall r this (Relaying (mkFrame (ctok f) (cxx f) (cxxfilt f) ph)) w.

(** [p.kill()] *)
Definition kill (p : nat) (w : World) : World :=
  match procs w !! p with
  | Some pr =>
      set_procs (<[p := mkProc (proc_command pr) (proc_args pr) (proc_cwd pr)
                                (stdin pr) (stdinEnded pr) true]> (procs w)) w
  | None => w
  end.

(** [p.stdin.write(chunk)] and [p.stdin.end()] *)
Definition writeStdin (p : nat) (chunk : jsstring) (w : World) : World :=
  match procs w !! p with
  | Some pr =>
      set_procs (<[p := mkProc (proc_command pr) (proc_args pr) (proc_cwd pr)
                                (stdin pr ++ [chunk]) (stdinEnded pr) (killed pr)]> (procs w)) w
  | None => w
  end.
Definition endStdin (p : nat) (w : World) : World :=
  match procs w !! p with
  | Some pr =>
      set_procs (<[p := mkProc (proc_command pr) (proc_args pr) (proc_cwd pr)
                                (stdin pr) true (killed pr)]> (procs w)) w
  | None => w
  end.

(** The [finally] block of [compile], after which its promise settles. *)
Definition settle (r : nat) (this : nat) (result : CallState) (w : World) : World :=
  setCall r this result
    (set_instances (alter (withTokenSource None) this (instances w)) w).

(** The [catch] block of [runCompiler]: both processes are killed and the
    error is thrown on, through the [finally] of [compile]. *)
Definition abort (r : nat) (this : nat) (f : Frame) (e : Exn) (w : World) : World :=
  settle r this (Rejected e) (kill (cxxfilt f) (kill (cxx f) w)).

(** [compile], up to the first [await] of [runCompiler]. *)
Definition compile (host : Host) (this : nat) (src : Uri) (customCommand : list jsstring)
    (w : World) : World :=
  match instances w !! this with
  | Some db =>
      match get host src db with
      | None => set_calls (calls w ++ [mkCall this (Rejected NoWorkspaceFolder)]) w
      | Some None => set_calls (calls w ++ [mkCall this (Rejected (CannotFindCommand src))]) w
      | Some (Some ccommand) =>
          let w := cancelCurrent db w in
          let ctokSource := length (tokens w) in
          let w := set_tokens (tokens w ++ [false]) w in
          let w := set_instances (alter (withTokenSource (Some ctokSource)) this (instances w)) w in
          set_calls (calls w ++ [mkCall this (Locating ctokSource ccommand customCommand)]) w
      end
  | None => w
  end.

(** [runCompiler] from the answer of [getCxxFiltExe] to the first read of
    [cxx.stdout]. *)
Definition spawnBoth (host : Host) (disk : Disk) (r this : nat) (ctokSource : nat)
    (ccommand : CompileCommand) (customCommand : list jsstring) (w : World) : World :=
  let compileArguments :=
    if bool_decide (length customCommand ≠ 0) then customCommand else arguments ccommand in
  match compileArguments, instances w !! this with
  | [], _ => settle r this (Rejected InvalidArgument) w
  | compExe :: _, Some db =>
      match getCxxFiltExe host disk compExe (cxxFiltExeCache db) with
      | (Some exe, cache) =>
          let w := set_instances (<[this := withCache cache db]> (instances w)) w in
          let cwd := if existsSync disk (directory ccommand)
                     then Some (directory ccommand) else None in
          let cxx := length (procs w) in
          let cxxfilt := S cxx in
          let w := set_procs
                     (procs w ++ [mkProc compExe (compilerArgs host ccommand compileArguments)
                                         cwd [] false false;
                                  mkProc exe [] None [] false false]) w in
          setCall r this (Relaying (mkFrame ctokSource cxx cxxfilt RelayCxx)) w
      | (None, _) => settle r this (Rejected LocateRejected) w
      end
  | _ :: _, None => w
  end.

(** One read of [for await (chunk of cxx.stdout)]. *)
Definition relayCxx (r this : nat) (f : Frame) (item : option jsstring) (w : World) : World :=
  match item with
  | Some chunk =>
      if isCancellationRequested (ctok f) w then abort r this f OperationCancelled w
      else writeStdin (cxxfilt f) chunk w
  | None => setPhase r this f (CheckCxx (ReadStderr [])) (endStdin (cxxfilt f) w)
  end.

(** One read of [for await (chunk of cxxfilt.stdout)]. *)
Definition collectFilt (r this : nat) (f : Frame) (asm : jsstring) (item : option jsstring)
    (w : World) : World :=
  match item with
  | Some chunk =>
      if isCancellationRequested (ctok f) w then abort r this f OperationCancelled w
      else setPhase r this f (CollectFilt (asm ++ chunk)) w
  | None => setPhase r this f (CheckFilt asm (ReadStderr [])) w
  end.

(** [if (!await this.checkStdErr(cxx)) throw ...], resumed by [ev].  An
    ['error'] event of the compiler reaches the listener registered by
    [cxx.on('error', ...)] first; that listener throws out of [emit], so
    the listener of [onExit], registered later, does not run and the
    promise of [onExit] stays pending. *)
Definition checkCxx (r this : nat) (f : Frame) (c : CheckPc) (ev : ProcEvent) (w : World)
    : World :=
  match ev with
  | ExitItem ErrorEvent => w
  | _ =>
      let '(res, ch) := checkStdErr c ev (channel w) in
      let w := set_channel ch w in
      match res with
      | inl c' => setPhase r this f (CheckCxx c') w
      | inr true => setPhase r this f (CollectFilt []) w
      | inr false => abort r this f CompilationFailed w
      end
  end.

(** [if (!await this.checkStdErr(cxxfilt)) throw ...], then the return. *)
Definition checkFilt (host : Host) (r this : nat) (f : Frame) (asm : jsstring) (c : CheckPc)
    (ev : ProcEvent) (w : World) : World :=
  let '(res, ch) := checkStdErr c ev (channel w) in
  let w := set_channel ch w in
  match res with
  | inl c' => setPhase r this f (CheckFilt asm c') w
  | inr true => settle r this (Resolved (postprocess host asm)) w
  | inr false => abort r this f CompilationFailed w
  end.

(** One turn of the event loop.  An event for a call that is not suspended
    on it changes nothing: a chunk of the compiler's standard error that
    arrives before [checkStdErr(cxx)] iterates the stream goes to the
    ['data'] listener of [cxx.stderr] alone, which keeps that stream flowing
    from the spawn on; an ['exit'] or ['error'] event finds no listener of
    [onExit] before [onExit] is called; the streams of the demangler have
    no ['data'] listener and hand out their chunks only when they are
    iterated. *)
Definition step (host : Host) (disk : Disk) (e : Event) (w : World) : World :=
  match e with
  | Compile this src customCommand => compile host this src customCommand w
  | Located r =>
      match calls w !! r with
      | Some (mkCall this (Locating t cc custom)) => spawnBoth host disk r this t cc custom w
      | _ => w
      end
  | CxxStdout r item =>
      match calls w !! r with
      | Some (mkCall this (Relaying (mkFrame t c x RelayCxx))) =>
          relayCxx r this (mkFrame t c x RelayCxx) item w
      | _ => w
      end
  | CxxStderr r item =>
      match calls w !! r with
      | Some (mkCall this (Relaying (mkFrame t c x (CheckCxx pc)))) =>
          checkCxx r this (mkFrame t c x (CheckCxx pc)) pc (StderrItem item) w
      | _ => w
      end
  | CxxExit r ev =>
      match calls w !! r with
      | Some (mkCall this (Relaying (mkFrame t c x (CheckCxx pc)))) =>
          checkCxx r this (mkFrame t c x (CheckCxx pc)) pc (ExitItem ev) w
      | _ => w
      end
  | FiltStdout r item =>
      match calls w !! r with
      | Some (mkCall this (Relaying (mkFrame t c x (CollectFilt asm)))) =>
          collectFilt r this (mkFrame t c x (CollectFilt asm)) asm item w
      | _ => w
      end
  | FiltStderr r item =>
      match calls w !! r with
      | Some (mkCall this (Relaying (mkFrame t c x (CheckFilt asm pc)))) =>
          checkFilt host r this (mkFrame t c x (CheckFilt asm pc)) asm pc (StderrItem item) w
      | _ => w
      end
  | FiltExit r ev =>
      match calls w !! r with
      | Some (mkCall this (Relaying (mkFrame t c x (CheckFilt asm pc)))) =>
          checkFilt host r this (mkFrame t c x (CheckFilt asm pc)) asm pc (ExitItem ev) w
      | _ => w
      end
  | CancelRequested r =>
      match calls w !! r with
      | Some (mkCall _ (Locating t _ _)) => cancel t w
      | Some (mkCall _ (Relaying f)) => cancel (ctok f) w
      | _ => w
      end
  end.

(** A sequence of turns. *)
Definition run (host : Host) (disk : Disk) (events : list Event) (w : World) : World :=
  fold_left (λ w e, step host disk e w) events w.

(** An editor with the one workspace folder [/ws]. *)
Module ExampleWorkspace.

Definition workspace : Workspace := {|
  getWorkspaceFolder := λ uri, if startsWith (js "/ws/") (uri_path uri) then Some (js "/ws") else None;
  getWorkspaceFolderOfFile := λ p, if startsWith (js "/ws/") p then Some (js "/ws") else None;
  Path_relative := λ from to, if startsWith (from ++ js "/") to then drop (S (length from)) to else to;
  Path_sep := js "/";
  Path_normalize := λ p, p;
  inheritedProperty := λ name,
    if decide (name = js "constructor") then Some (js "function Object() { [native code] }")
    else None
|}.

End ExampleWorkspace.

(** ** A small workspace for the examples

    The workspace [/ws] holds [main.cpp] and a [compile_commands.json]
    with one entry; [/usr/bin] holds [gcc-11] and [c++filt-11].  The host
    functions answer as Node and the editor do on the paths used here. *)
Module Example.

Definition quoted (s : string) : jsstring := dquote ++ js s ++ dquote.
Arguments quoted s%_string.

Definition entryText (dir cmd f : string) : jsstring :=
  js "[{" ++ quoted "directory" ++ js ":" ++ quoted dir ++ js ","
  ++ quoted "command" ++ js ":" ++ quoted cmd ++ js ","
  ++ quoted "file" ++ js ":" ++ quoted f ++ js ","
  ++ quoted "arguments" ++ js ":[]}]".
Arguments entryText (dir cmd f)%_string.

Definition mainEntry : CompileCommand :=
  mkCompileCommand (js "/ws") (js "gcc -c main.cpp -o main.o") (js "main.cpp") [].
Definition mainText : jsstring := entryText "/ws" "gcc -c main.cpp -o main.o" "main.cpp".

Definition utilEntry : CompileCommand :=
  mkCompileCommand (js "/ws") (js "clang++ -c util.cpp") (js "util.cpp") [].
Definition utilText : jsstring := entryText "/ws" "clang++ -c util.cpp" "util.cpp".

(** A file caught in the middle of a write. *)
Definition truncatedText : jsstring := js "[{" ++ quoted "directory" ++ js ":".

Definition splitAtNewlines (text : jsstring) : list jsstring :=
  fold_right (λ u acc, if decide (u = 10%N) then [] :: acc
                       else match acc with
                            | line :: rest => (u :: line) :: rest
                            | [] => [[u]]
                            end) [[]] text.

Definition host : Host := {|
  compilationDirectory := js "${workspaceFolder}";
  workspace := ExampleWorkspace.workspace;
  workspaceFolder := js "/ws";
  JSON_parse := λ text,
    if decide (text = mainText) then Some [mainEntry]
    else if decide (text = utilText) then Some [utilEntry]
    else None;
  joinedLocation := λ dir segment, dir ++ js "/" ++ segment;
  Path_parse := λ p,
    if decide (p = js "/ws/gcc") then mkParsedPath (js "/ws") (js "gcc") []
    else if decide (p = js "/usr/bin/gcc-11") then mkParsedPath (js "/usr/bin") (js "gcc-11") []
    else mkParsedPath [] p [];
  Path_join := λ segments, join (js "/") (List.filter (λ x, bool_decide (x ≠ [])) segments);
  Path_resolve := λ dir f, dir ++ js "/" ++ f;
  splitLines := splitAtNewlines
|}.

Definition disk : Disk := {|
  readFile := λ p, if decide (p = js "/ws/compile_commands.json") then Some mainText else None;
  readdir := λ d,
    if decide (d = js "/ws") then Some [js "compile_commands.json"; js "main.cpp"]
    else if decide (d = js "/usr/bin") then Some [js "c++filt-11"; js "gcc-11"]
    else None;
  existsSync := λ p, bool_decide (p ∈ [js "/ws"; js "/usr/bin/gcc-11"; js "/usr/bin/c++filt-11"]);
  which := λ _, None
|}.

(** The same disk after [compile_commands.json] has been rewritten. *)
Definition diskWith (text : jsstring) : Disk := {|
  readFile := λ p, if decide (p = js "/ws/compile_commands.json") then Some text else None;
  readdir := readdir disk;
  existsSync := existsSync disk;
  which := which disk
|}.

Definition mainUri : Uri := mkUri 0 (js "/ws/main.cpp") (js "/ws/main.cpp").

(** The editor has created one object, the [Uri] of the open file. *)
Definition start : World := set_nextRef 1 emptyWorld.

(** The world after the first [CompilationDatabase.for(mainUri)]. *)
Definition opened : World := snd (for_ host disk mainUri start).

(** The instance that call returned. *)
Definition db : nat := 3.

(** The events of one whole run of call [r] whose compiler prints [asm] and
    whose c++filt echoes it, both exiting with status 0. *)
Definition relayAll (r : nat) (asm : jsstring) : list Event :=
  [Located r; CxxStdout r (Some asm); CxxStdout r None; CxxStderr r None;
   CxxExit r (Exited (Some 0%Z)); FiltStdout r (Some asm); FiltStdout r None].
Definition finish (r : nat) : list Event :=
  [FiltStderr r None; FiltExit r (Exited (Some 0%Z))].

End Example.

(** [k] passes this test when the pattern occurs at no index below [k]. *)
Definition noneBefore (pat s : jsstring) (k : nat) : bool :=
  forallb (λ j, negb (startsWith pat (drop j s))) (seq 0 k).

(** Every key of [compdbs] is an object that already exists. *)
Definition keysAllocated (w : World) : Prop :=
  ∀ key, is_Some (compdbs w !! key) → key < nextRef w.

(** ** Vocabulary for the statements about the pipeline *)


(** The processes of every call inside the [try] block exist, the
    demangler right after the compiler. *)
Definition framesSpawned (w : World) : Prop :=
  ∀ r this f,
    calls w !! r = Some (mkCall this (Relaying f)) →
    cxxfilt f = S (cxx f) ∧ cxxfilt f < length (procs w).

(** Call [r] is suspended in phase [ph], its token is not cancelled and
    the output channel holds [ch]. *)
Definition suspended (r this t c x : nat) (ph : Phase) (ch : list OutputEvent) (w : World)
    : Prop :=
  calls w !! r = Some (mkCall this (Relaying (mkFrame t c x ph)))
  ∧ isCancellationRequested t w = false
  ∧ channel w = ch.

(** What [checkStdErr] appends to the channel for the text [stderr]. *)
Definition report (stderr : jsstring) : list OutputEvent :=
  if bool_decide (0 < length stderr) then [AppendLine stderr; Show] else [].

(** The events of the compiler half and of the demangler half of one run:
    the chunks of standard output, its end, the chunks of standard error,
    its end, and the exit with a status. *)
Definition cxxHalf (r : nat) (out err : list jsstring) (code : option Z) : list Event :=
  map (λ chunk, CxxStdout r (Some chunk)) out ++ [CxxStdout r None]
  ++ map (λ chunk, CxxStderr r (Some chunk)) err ++ [CxxStderr r None; CxxExit r (Exited code)].

Definition filtHalf (r : nat) (out err : list jsstring) (code : option Z) : list Event :=
  map (λ chunk, FiltStdout r (Some chunk)) out ++ [FiltStdout r None]
  ++ map (λ chunk, FiltStderr r (Some chunk)) err ++ [FiltStderr r None; FiltExit r (Exited code)].

(** ** The single-flight property as the specification words it

    A call is in flight from its start until its promise settles; it has
    produced output when it resolved with assembly text. *)
Definition inFlight (w : World) (r this : nat) : bool :=
  match calls w !! r with
  | Some (mkCall d (Locating _ _ _)) | Some (mkCall d (Relaying _)) => bool_decide (d = this)
  | _ => false
  end.



(** ** The remaining operations on the registry *)

(** [CompilationDatabase.disposable()]: the callback disposes every
    registered instance.  The [Map] is walked in insertion order; [dispose]
    calls on different instances commute, so any order gives the same
    world. *)
Definition disposeAll (w : World) : World :=
  foldr dispose w (map snd (map_to_list (compdbs w))).

(** Every instance in the store is an object that already exists. *)
Definition instancesAllocated (w : World) : Prop :=
  ∀ r, is_Some (instances w !! r) → r < nextRef w.

(** A workspace whose database lists [main.cpp] twice. *)
Module Example2.

Definition first : CompileCommand :=
  mkCompileCommand (js "/ws") (js "gcc -O0 -c main.cpp") (js "main.cpp") [].
Definition second : CompileCommand :=
  mkCompileCommand (js "/ws") (js "gcc -O2 -c main.cpp") (js "main.cpp") [].
Definition object (cmd : string) : jsstring :=
  js "{" ++ Example.quoted "directory" ++ js ":" ++ Example.quoted "/ws" ++ js ","
  ++ Example.quoted "command" ++ js ":" ++ Example.quoted cmd ++ js ","
  ++ Example.quoted "file" ++ js ":" ++ Example.quoted "main.cpp" ++ js ","
  ++ Example.quoted "arguments" ++ js ":[]}".
Arguments object cmd%_string.

Definition text : jsstring :=
  js "[" ++ object "gcc -O0 -c main.cpp" ++ js "," ++ object "gcc -O2 -c main.cpp" ++ js "]".

Definition host : Host := {|
  compilationDirectory := compilationDirectory Example.host;
  workspace := workspace Example.host;
  workspaceFolder := workspaceFolder Example.host;
  JSON_parse := λ t, if decide (t = text) then Some [first; second] else None;
  joinedLocation := joinedLocation Example.host;
  Path_parse := Path_parse Example.host;
  Path_join := Path_join Example.host;
  Path_resolve := Path_resolve Example.host;
  splitLines := splitLines Example.host
|}.

Definition uri : Uri :=
  mkUri 2 (js "/ws/compile_commands.json") (js "/ws/compile_commands.json").

End Example2.

(** The example workspace with the setting [${workspaceFolder}/build]. *)
Module ExampleBuild.

Definition host : Host := {|
  compilationDirectory := js "${workspaceFolder}/build";
  workspace := workspace Example.host;
  workspaceFolder := workspaceFolder Example.host;
  JSON_parse := JSON_parse Example.host;
  joinedLocation := joinedLocation Example.host;
  Path_parse := Path_parse Example.host;
  Path_join := Path_join Example.host;
  Path_resolve := Path_resolve Example.host;
  splitLines := splitLines Example.host
|}.



End ExampleBuild.

(** A call whose promise has settled. *)
Definition settled (st : CallState) : bool :=
  match st with
  | Resolved _ | Rejected _ => true
  | Locating _ _ _ | Relaying _ => false
  end.

(** The call an event resumes, if any. *)
Definition target (e : Event) : option nat :=
  match e with
  | Compile _ _ _ | CancelRequested _ => None
  | Located r | CxxStdout r _ | CxxStderr r _ | CxxExit r _
  | FiltStdout r _ | FiltStderr r _ | FiltExit r _ => Some r
  end.

(** ** Vocabulary for the statements about cancellation tokens *)







(** ** [pathWithoutExtension] *)

(** [s.lastIndexOf(u)] for a pattern of one code unit: the greatest index
    at which [u] stands, or [-1]. *)
Fixpoint lastIndexOf (u : N) (s : jsstring) : Z :=
  match s with
  | [] => (-1)%Z
  | c :: s' =>
      let later := lastIndexOf u s' in
      if (0 <=? later)%Z then (later + 1)%Z
      else if (c =? u)%N then 0%Z else (-1)%Z
  end.

(** How [String.prototype.slice] reads one of its arguments: a negative
    index counts from the end, and the result is clamped to the string. *)
Definition relativeIndex (len i : Z) : Z :=
  if (i <? 0)%Z then Z.max (len + i) 0 else Z.min i len.

(** [s.slice(a, b)] with integer arguments of either sign. *)
Definition sliceFrom (s : jsstring) (a b : Z) : jsstring :=
  let len := Z.of_nat (length s) in
  let from := relativeIndex len a in
  let to := relativeIndex len b in
  take (Z.to_nat (Z.max (to - from) 0)) (drop (Z.to_nat from) s).

(** [pathWithoutExtension]; the empty string is the falsy operand of [||]. *)
Definition pathWithoutExtension (path : jsstring) : jsstring :=
  match sliceFrom path 0 (lastIndexOf 46 path) with
  | [] => path
  | stem => stem
  end.

(** The keys of the object literal [variables]. *)
Definition variableNames : list jsstring :=
  [js "workspaceFolder"; js "workspaceFolderBasename"; js "file"; js "fileWorkspaceFolder";
   js "relativeFile"; js "pathSeparator"].

(** ** Vocabulary for the statements about the splitter *)

(** The maximal space-free runs of [s], the run in progress being [cur]. *)
Fixpoint fields (s : jsstring) (cur : jsstring) : list jsstring :=
  match s with
  | [] => if bool_decide (0 < length cur) then [cur] else []
  | u :: rest =>
      if decide (u = 32%N)
      then (if bool_decide (0 < length cur) then [cur] else []) ++ fields rest []
      else fields rest (cur ++ [u])
  end.

(** A code unit that is neither a backslash nor a quote nor the first
    half of a surrogate pair. *)
Definition plainUnit (u : N) : Prop :=
  u ≠ 92%N ∧ u ≠ 39%N ∧ u ≠ 34%N ∧ isHighSurrogate u = false.

(** The same as a test. *)
Definition plainUnitb (u : N) : bool :=
  negb (u =? 92)%N && negb (u =? 39)%N && negb (u =? 34)%N && negb (isHighSurrogate u).

(** * Properties *)

(** ** ArgvSplitter *)

(** C3, as amended: the five tokens of the example, the third of which
    keeps its quote characters. *)
Theorem splitWhitespace_example :
  splitWhitespace (js "gcc -O2 'foo bar.cpp' -o out")
  = [js "gcc"; js "-O2"; js "'foo bar.cpp'"; js "-o"; js "out"].
Proof. vm_compute. reflexivity. Qed.

(** C3, as stated, fails: the third token is not the unquoted text. *)
Lemma splitWhitespace_example_keeps_quotes :
  splitWhitespace (js "gcc -O2 'foo bar.cpp' -o out")
  ≠ [js "gcc"; js "-O2"; js "foo bar.cpp"; js "-o"; js "out"].
Proof. vm_compute. discriminate. Qed.

(** C9 at the input [\a "b c"]: the double quotes come two and six
    characters after the only backslash, yet neither opens a quoted region,
    and the space between them splits the text. *)
Theorem splitWhitespace_escape_outlives_next_character :
  splitWhitespace (js "\a " ++ dquote ++ js "b c" ++ dquote)
  = [js "\a"; dquote ++ js "b"; js "c" ++ dquote]
  ∧ shouldEscape (splitLoop (js "\a " ++ dquote ++ js "b c" ++ dquote)) = true
  ∧ quoteChar (splitLoop (js "\a " ++ dquote ++ js "b c" ++ dquote)) = None.
Proof. vm_compute. auto. Qed.

(** While [shouldEscape] is set, no character other than a backslash
    clears it, and no quote character changes [quoteChar]. *)
Lemma splitBody_escape_persists str st ch :
  shouldEscape st = true → ch ≠ js "\" →
  shouldEscape (splitBody str st ch) = true
  ∧ quoteChar (splitBody str st ch) = quoteChar st.
Proof.
  intros He Hch. destruct st as [q e ss i0 s0]. simpl in He. subst e.
  unfold splitBody, splitSwitch.
  repeat (case_decide; simpl; try done).
  all: destruct q; done.
Qed.

(** ** String replacement and the lookup key *)

Lemma replace_eq pat repl s :
  replace pat repl s
  = if startsWith pat s then repl ++ drop (length pat) s
    else match s with
         | [] => []
         | c :: s' => c :: replace pat repl s'
         end.
Proof. destruct s; reflexivity. Qed.

Lemma startsWith_app pat t : startsWith pat (pat ++ t) = true.
Proof. induction pat as [|a pat IH]; simpl; [done|]. by rewrite bool_decide_eq_true_2. Qed.

Lemma startsWith_inv pat s : startsWith pat s = true → s = pat ++ drop (length pat) s.
Proof.
  revert s. induction pat as [|a pat IH]; intros [|b s]; simpl; try done.
  intros [Hab Hs]%andb_prop. apply bool_decide_eq_true_1 in Hab. subst b.
  f_equal. by apply IH.
Qed.

Lemma occursIn_eq pat s :
  occursIn pat s
  = startsWith pat s || match s with [] => false | _ :: s' => occursIn pat s' end.
Proof. destruct s; reflexivity. Qed.

Lemma occursIn_false pat s :
  occursIn pat s = false → ∀ pre post, s ≠ pre ++ pat ++ post.
Proof.
  intros Hocc pre. revert s Hocc. induction pre as [|c pre IH]; intros s Hocc post Hs.
  - simpl in Hs. subst s. rewrite occursIn_eq, startsWith_app in Hocc. done.
  - subst s. rewrite occursIn_eq in Hocc. apply orb_false_elim in Hocc as [_ Hocc].
    simpl in Hocc. by eapply IH.
Qed.

Lemma noneBefore_least pat s k :
  noneBefore pat s k = true →
  ∀ pre post, s = pre ++ pat ++ post → k ≤ length pre.
Proof.
  unfold noneBefore. intros Hall pre post Hs.
  destruct (decide (k ≤ length pre)) as [|Hlt]; [done|]. exfalso.
  rewrite forallb_forall in Hall.
  assert (Hin : In (length pre) (seq 0 k)) by (apply in_seq; lia).
  apply Hall in Hin. subst s.
  rewrite drop_app_length, startsWith_app in Hin. done.
Qed.


Lemma replace_absent pat repl s :
  (∀ pre post, s ≠ pre ++ pat ++ post) → replace pat repl s = s.
Proof.
  induction s as [|c s IH]; intros Habs; rewrite replace_eq.
  - destruct (startsWith pat []) eqn:Hsw; [|done].
    apply startsWith_inv in Hsw. by destruct (Habs [] _ Hsw).
  - destruct (startsWith pat (c :: s)) eqn:Hsw.
    + apply startsWith_inv in Hsw. by destruct (Habs [] _ Hsw).
    + f_equal. apply IH. intros pre post Hs. apply (Habs (c :: pre) post).
      simpl. by rewrite Hs.
Qed.





(** ** CommandReconstructor and the stored commands *)

Lemma filterStateful_app {A S : Type} (cb : S → A → bool * S) (st : S) (l1 l2 : list A) :
  filterStateful cb st (l1 ++ l2)
  = filterStateful cb st l1 ++ filterStateful cb (filterFinal cb st l1) l2.
Proof.
  revert st. induction l1 as [|x l1 IH]; intros st; simpl; [done|].
  destruct (cb st x) as [keep st'] eqn:E. simpl.
  destruct keep; simpl; by rewrite IH.
Qed.

Lemma outfileFilter_keeps (st : bool) (arg : jsstring) (st' : bool) :
  outfileFilter st arg = (true, st') →
  arg ≠ js "-o" ∧ arg ≠ js "-c" ∧ arg ≠ js "-g".
Proof.
  unfold outfileFilter. destruct st; simpl; [done|].
  case_bool_decide as Ho; [done|]. intros [= Hk _].
  apply andb_prop in Hk as [Hc Hg].
  apply bool_decide_eq_true_1 in Hc, Hg. done.
Qed.

(** Nothing the filter lets through is one of the three flags. *)
Lemma filterStateful_outfile_elem (st : bool) (args : list jsstring) (x : jsstring) :
  x ∈ filterStateful outfileFilter st args →
  x ≠ js "-o" ∧ x ≠ js "-c" ∧ x ≠ js "-g".
Proof.
  revert st. induction args as [|a args IH]; intros st; simpl; [by intros ?%elem_of_nil|].
  destruct (outfileFilter st a) as [keep st'] eqn:E. destruct keep; [|by apply IH].
  intros [->|Hin]%elem_of_cons; [by eapply outfileFilter_keeps|by eapply IH].
Qed.

(** An [-o] met outside the outfile state goes, and so does its value. *)
Lemma filterStateful_outfile_pair (v : jsstring) (post : list jsstring) :
  filterStateful outfileFilter false (js "-o" :: v :: post)
  = filterStateful outfileFilter false post.
Proof. reflexivity. Qed.

(** A token that holds a slash after its directory part is kept and
    leaves the filter outside the outfile state. *)
Lemma outfileFilter_joined (dir a : jsstring) :
  outfileFilter false (dir ++ js "/" ++ a) = (true, false).
Proof.
  assert (Hne : ∀ c : N, c ∈ [111; 99; 103]%N → dir ++ js "/" ++ a ≠ [45%N; c]).
  { intros c Hc. destruct dir as [|d1 [|d2 dir]]; simpl.
    - intros [=].
    - intros [= ? ? ?]. subst c. rewrite !elem_of_cons, elem_of_nil in Hc.
      destruct Hc as [?|[?|[?|[]]]]; done.
    - intros [= ? ? Hnil]. by destruct dir. }
  unfold outfileFilter. simpl negb. cbv iota.
  rewrite (bool_decide_eq_false_2 (_ = js "-o")) by (apply Hne; set_solver).
  rewrite !bool_decide_eq_true_2; [done| |]; apply Hne; set_solver.
Qed.

Lemma constructCompileCommand_head (command : jsstring) (args : list jsstring)
    (dir a : jsstring) (rest : list jsstring) :
  effectiveArgs command args = a :: rest →
  constructCompileCommand command args dir
  = (dir ++ js "/" ++ a) :: filterStateful outfileFilter false rest.
Proof.
  intros Heff. unfold constructCompileCommand. rewrite Heff.
  cbn [setFirst filterStateful]. by rewrite outfileFilter_joined.
Qed.

(** What the [Map] built by [load] holds under a key is one of the listed
    commands, recorded under its own [file]. *)
Lemma indexByFile_lookup (l : list CompileCommand) (key : jsstring) (cc : CompileCommand) :
  indexByFile l !! key = Some cc → cc ∈ l ∧ file cc = key.
Proof.
  unfold indexByFile.
  assert (Hgen : ∀ m : gmap jsstring CompileCommand,
            fold_left (λ ccommands command, <[file command := command]> ccommands) l m !! key
            = Some cc →
            (cc ∈ l ∧ file cc = key) ∨ m !! key = Some cc).
  { induction l as [|c l IH]; intros m; simpl; [by right|].
    intros [[Hin Hk]|Hm]%IH.
    - left. split; [by right|done].
    - destruct (decide (file c = key)) as [<-|Hne].
      + rewrite lookup_insert_eq in Hm. injection Hm as ->. left. split; [by left|done].
      + rewrite lookup_insert_ne in Hm by done. by right. }
  intros [?|Hm]%Hgen; [done|]. by rewrite lookup_empty in Hm.
Qed.

(** C4, as amended: a stored command comes from one parsed entry; its
    arguments hold no [-c], [-g] or [-o] and no token equal to the entry's
    file; an [-o] in flag position is removed together with the token after
    it; and the first element is the directory-joined first token whenever
    that joined path differs from the entry's file. *)
Theorem stored_arguments_invariant (host : Host) (disk : Disk) (uri : Uri)
    (ccommands : gmap jsstring CompileCommand) (key : jsstring) (cc : CompileCommand) :
  load host disk uri = Some ccommands →
  ccommands !! key = Some cc →
  ∃ text entries e,
    readFile disk (uri_path uri) = Some text
    ∧ JSON_parse host text = Some entries
    ∧ e ∈ entries ∧ cc = preprocessEntry e ∧ key = file e
    ∧ (js "-c" ∉ arguments cc) ∧ (js "-g" ∉ arguments cc) ∧ (js "-o" ∉ arguments cc)
    ∧ (file e ∉ arguments cc)
    ∧ (∀ a rest,
          effectiveArgs (command e) (arguments e) = a :: rest →
          directory e ++ js "/" ++ a ≠ file e →
          head (arguments cc) = Some (directory e ++ js "/" ++ a))
    ∧ (∀ pre v post,
          setFirst (directory e) (effectiveArgs (command e) (arguments e))
          = pre ++ js "-o" :: v :: post →
          filterFinal outfileFilter false pre = false →
          arguments cc
          = filter (λ arg, arg ≠ file e) (filterStateful outfileFilter false pre)
            ++ filter (λ arg, arg ≠ file e) (filterStateful outfileFilter false post)).
Proof.
  unfold load. intros Hload Hkey.
  destruct (readFile disk (uri_path uri)) as [text|] eqn:Hread; [|done].
  simpl in Hload.
  destruct (JSON_parse host text) as [entries|] eqn:Hparse; [|done].
  simpl in Hload. injection Hload as <-.
  apply indexByFile_lookup in Hkey as [Hin Hfile].
  unfold preprocess in Hin. apply list_elem_of_fmap in Hin as (e & -> & He).
  exists text, entries, e. simpl in Hfile.
  assert (Hflags : ∀ x, x ∈ arguments (preprocessEntry e) →
            x ≠ js "-o" ∧ x ≠ js "-c" ∧ x ≠ js "-g" ∧ x ≠ file e).
  { simpl. intros x [Hne Hx]%list_elem_of_filter.
    apply filterStateful_outfile_elem in Hx as (? & ? & ?). done. }
  repeat split; try done.
  - intros H. by destruct (Hflags _ H) as (_ & ? & _).
  - intros H. by destruct (Hflags _ H) as (_ & _ & ? & _).
  - intros H. by destruct (Hflags _ H) as (? & _).
  - intros H. by destruct (Hflags _ H) as (_ & _ & _ & ?).
  - intros a rest Heff Hne. simpl.
    rewrite (constructCompileCommand_head _ _ _ _ _ Heff).
    rewrite filter_cons_True by done. done.
  - intros pre v post Hargs Hst. simpl. unfold constructCompileCommand.
    rewrite Hargs, filterStateful_app, Hst, filterStateful_outfile_pair.
    by rewrite filter_app.
Qed.

Lemma stored_arguments_invariant_witness :
  ∃ text entries e,
    readFile Example.disk (js "/ws/compile_commands.json") = Some text
    ∧ JSON_parse Example.host text = Some entries
    ∧ e ∈ entries
    ∧ mkCompileCommand (js "/ws") [] (js "main.cpp") [js "/ws/gcc"] = preprocessEntry e
    ∧ js "main.cpp" = file e
    ∧ (js "-c" ∉ [js "/ws/gcc"]) ∧ (js "-g" ∉ [js "/ws/gcc"]) ∧ (js "-o" ∉ [js "/ws/gcc"])
    ∧ (file e ∉ [js "/ws/gcc"])
    ∧ (∀ a rest,
          effectiveArgs (command e) (arguments e) = a :: rest →
          directory e ++ js "/" ++ a ≠ file e →
          head [js "/ws/gcc"] = Some (directory e ++ js "/" ++ a))
    ∧ (∀ pre v post,
          setFirst (directory e) (effectiveArgs (command e) (arguments e))
          = pre ++ js "-o" :: v :: post →
          filterFinal outfileFilter false pre = false →
          [js "/ws/gcc"]
          = filter (λ arg, arg ≠ file e) (filterStateful outfileFilter false pre)
            ++ filter (λ arg, arg ≠ file e) (filterStateful outfileFilter false post)).
Proof.
  apply (stored_arguments_invariant Example.host Example.disk
           (mkUri 2 (js "/ws/compile_commands.json") (js "/ws/compile_commands.json"))
           (indexByFile (preprocess [Example.mainEntry]))
           (js "main.cpp")
           (mkCompileCommand (js "/ws") [] (js "main.cpp") [js "/ws/gcc"])).
  - vm_compute. reflexivity.
  - vm_compute. reflexivity.
Defined.

(** C4, as stated, fails: an entry whose [file] is the joined compiler
    path loses that path to the file-name filter, and the stored vector
    starts with the next token. *)
Lemma stored_arguments_first_filtered :
  effectiveArgs [] [js "gcc"; js "-c"; js "main.cpp"] = [js "gcc"; js "-c"; js "main.cpp"]
  ∧ indexByFile
      (preprocess [mkCompileCommand (js "/build") [] (js "/build/gcc")
                                    [js "gcc"; js "-c"; js "main.cpp"]])
    !! js "/build/gcc"
    = Some (mkCompileCommand (js "/build") [] (js "/build/gcc") [js "main.cpp"])
  ∧ head [js "main.cpp"] ≠ Some (js "/build" ++ js "/" ++ js "gcc").
Proof. vm_compute. split; [done|]. split; [done|]. discriminate. Qed.

(** ** Reloading on a change signal *)

(** C8: when the changed file does not parse (or cannot be read), the
    handler leaves the world, and with it the instance's index, as it was;
    when it parses, the instance's index becomes the index of the new
    entries alone, so a key that no new entry carries is absent afterwards. *)
Theorem reload_keeps_index_on_failure (host : Host) (disk : Disk) (this : nat) (w : World)
    (db : CompilationDatabase) :
  instances w !! this = Some db →
  watcher db = true →
  (∀ text,
      readFile disk (uri_path (compileCommandsFile db)) = Some text →
      JSON_parse host text = None →
      onDidChange host disk this w = w)
  ∧ (readFile disk (uri_path (compileCommandsFile db)) = None →
     onDidChange host disk this w = w)
  ∧ (∀ text entries,
      readFile disk (uri_path (compileCommandsFile db)) = Some text →
      JSON_parse host text = Some entries →
      instances (onDidChange host disk this w) !! this
      = Some (withCommands (indexByFile (preprocess entries)) db)
      ∧ ∀ key, key ∉ map file entries →
               indexByFile (preprocess entries) !! key = None).
Proof.
  intros Hdb Hwatch. unfold onDidChange, load. rewrite Hdb, Hwatch.
  split; [|split].
  - intros text -> Hparse. simpl. by rewrite Hparse.
  - by intros ->.
  - intros text entries -> Hparse. simpl. rewrite Hparse. simpl.
    split; [by rewrite lookup_insert_eq|].
    intros key Hkey.
    destruct (indexByFile (preprocess entries) !! key) as [cc|] eqn:E; [|done].
    apply indexByFile_lookup in E as [Hin Hfile].
    unfold preprocess in Hin. apply list_elem_of_fmap in Hin as (e & -> & He).
    simpl in Hfile. subst key. destruct Hkey.
    apply list_elem_of_fmap. by exists e.
Qed.

(** On the example workspace: a truncated file leaves the index of
    [main.cpp] in place; a rewritten file with the entry of [util.cpp]
    drops [main.cpp]. *)
Lemma reload_keeps_index_on_failure_witness :
  onDidChange Example.host (Example.diskWith Example.truncatedText) Example.db Example.opened
  = Example.opened
  ∧ (commands <$> instances (onDidChange Example.host (Example.diskWith Example.utilText)
                                         Example.db Example.opened) !! Example.db)
    = Some (indexByFile (preprocess [Example.utilEntry]))
  ∧ indexByFile (preprocess [Example.utilEntry]) !! js "main.cpp" = None.
Proof.
  destruct (reload_keeps_index_on_failure Example.host
              (Example.diskWith Example.truncatedText) Example.db Example.opened
              (mkCompilationDatabase None
                 (mkUri 2 (js "/ws/compile_commands.json") (js "/ws/compile_commands.json"))
                 (indexByFile (preprocess [Example.mainEntry])) ∅ true))
    as (Hfail & _ & _); [vm_compute; reflexivity | reflexivity |].
  destruct (reload_keeps_index_on_failure Example.host
              (Example.diskWith Example.utilText) Example.db Example.opened
              (mkCompilationDatabase None
                 (mkUri 2 (js "/ws/compile_commands.json") (js "/ws/compile_commands.json"))
                 (indexByFile (preprocess [Example.mainEntry])) ∅ true))
    as (_ & _ & Hok); [vm_compute; reflexivity | reflexivity |].
  destruct (Hok Example.utilText [Example.utilEntry]) as [Hnew Hgone];
    [vm_compute; reflexivity | vm_compute; reflexivity |].
  split; [|split].
  - apply (Hfail Example.truncatedText); vm_compute; reflexivity.
  - rewrite Hnew. reflexivity.
  - apply Hgone. vm_compute. intros [[=]|[]%elem_of_nil]%elem_of_cons.
Defined.

(** ** The registry *)

(** The [Uri] that [for] builds is a new object, so the [Map] has no entry
    under it: the early return of [for] is never taken. *)
Lemma for_lookup_misses (host : Host) (buildDirectory segment : jsstring) (w : World) :
  keysAllocated w →
  compdbs (snd (Uri_joinPath_parse host buildDirectory segment w))
  !! uri_ref (fst (Uri_joinPath_parse host buildDirectory segment w)) = None.
Proof.
  intros Hkeys. simpl.
  destruct (compdbs w !! S (nextRef w)) eqn:E; [|done].
  assert (S (nextRef w) < nextRef w) by (apply Hkeys; by rewrite E). lia.
Qed.

Lemma for_keeps_keysAllocated (host : Host) (disk : Disk) (srcUri : Uri) (w : World) :
  keysAllocated w → keysAllocated (snd (for_ host disk srcUri w)).
Proof.
  intros Hkeys. unfold for_.
  destruct (resolvePath host (workspace host) (compilationDirectory host) srcUri)
    as [buildDirectory|]; [|done].
  pose proof (for_lookup_misses host buildDirectory
                (js "compile_commands.json") w Hkeys) as Hmiss.
  destruct (Uri_joinPath_parse _ _ _ w) as [uri w1] eqn:E.
  assert (Hw1 : compdbs w1 = compdbs w ∧ nextRef w1 = S (S (nextRef w))
                ∧ uri_ref uri = S (nextRef w)).
  { unfold Uri_joinPath_parse in E. by injection E as <- <-. }
  destruct Hw1 as (Hc & Hn & Hu). simpl in Hmiss. rewrite Hmiss.
  assert (Hk1 : keysAllocated w1).
  { intros key Hkey. rewrite Hc in Hkey. apply Hkeys in Hkey. lia. }
  destruct (load host disk uri); simpl; [|done].
  intros key Hkey. simpl in *.
  destruct (decide (uri_ref uri = key)) as [<-|Hne]; [lia|].
  rewrite lookup_insert_ne in Hkey by done. apply Hk1 in Hkey. lia.
Qed.

(** C2 at two successive calls of [for] with the same source: the second
    call does not return the instance the first one registered but loads
    again and registers another instance for the same location. *)
Theorem for_registers_second_instance :
  fst (for_ Example.host Example.disk Example.mainUri Example.start) = Some 3
  ∧ fst (for_ Example.host Example.disk Example.mainUri Example.opened) = Some 6
  ∧ size (compdbs (snd (for_ Example.host Example.disk Example.mainUri Example.opened))) = 2
  ∧ (uri_path ∘ compileCommandsFile
       <$> instances (snd (for_ Example.host Example.disk Example.mainUri Example.opened)) !! 3)
    = Some (js "/ws/compile_commands.json")
  ∧ (uri_path ∘ compileCommandsFile
       <$> instances (snd (for_ Example.host Example.disk Example.mainUri Example.opened)) !! 6)
    = Some (js "/ws/compile_commands.json").
Proof. vm_compute. repeat split; reflexivity. Qed.

(** In any world whose registry keys are existing objects, a call of [for]
    that answers has added an entry to the registry. *)
Lemma for_always_registers (host : Host) (disk : Disk) (srcUri : Uri) (w : World)
    (compdb : nat) :
  keysAllocated w →
  fst (for_ host disk srcUri w) = Some compdb →
  size (compdbs (snd (for_ host disk srcUri w))) = S (size (compdbs w)).
Proof.
  intros Hkeys. unfold for_.
  destruct (resolvePath host (workspace host) (compilationDirectory host) srcUri)
    as [buildDirectory|]; [|done].
  pose proof (for_lookup_misses host buildDirectory
                (js "compile_commands.json") w Hkeys) as Hmiss.
  destruct (Uri_joinPath_parse _ _ _ w) as [uri w1] eqn:E.
  assert (Hc : compdbs w1 = compdbs w).
  { unfold Uri_joinPath_parse in E. by injection E as <- <-. }
  simpl in Hmiss. rewrite Hmiss.
  destruct (load host disk uri); [|done].
  unfold newCompilationDatabase. simpl. intros _.
  rewrite map_size_insert_None by done. by rewrite Hc.
Qed.

(** ** DemanglerLocator *)

(** When the directory search comes back empty, the answer is the path
    built from the rewritten name if that path exists, and the bare
    [c++filt] otherwise. *)
Lemma findCxxFiltExe_guess (host : Host) (disk : Disk) (compExe : jsstring)
    (files : list jsstring) :
  pp_dir (Path_parse host compExe) ≠ [] →
  readdir disk (pp_dir (Path_parse host compExe)) = Some files →
  List.find (endsWith (cxxfiltExe ++ pp_ext (Path_parse host compExe))) files = None →
  findCxxFiltExe host disk compExe
  = Some (let guess := Path_join host [pp_dir (Path_parse host compExe);
                                        rewriteName (pp_name (Path_parse host compExe));
                                        pp_ext (Path_parse host compExe)] in
          if existsSync disk guess then guess else cxxfiltExe).
Proof.
  intros Hdir Hread Hfind. unfold findCxxFiltExe.
  rewrite bool_decide_eq_false_2 by (by destruct (pp_dir (Path_parse host compExe))).
  unfold findExePath. rewrite Hread. cbn [mbind option_bind]. by rewrite Hfind.
Qed.

(** C5 at the compiler [/usr/bin/gcc-11], beside which [c++filt-11] is
    installed: no file name of [/usr/bin] ends with [c++filt]; substituting
    the first matching fragment, [gcc], gives [c++filt-11], which exists;
    but the chain of replacements goes on to replace the [c++] of the
    inserted [c++filt], tests [/usr/bin/c++filtfilt-11] and answers with the
    bare name. *)
Theorem findCxxFiltExe_rewrites_inserted_name :
  List.find (endsWith cxxfiltExe) [js "c++filt-11"; js "gcc-11"] = None
  ∧ substituteFirstFragment (js "gcc-11") = js "c++filt-11"
  ∧ existsSync Example.disk
      (Path_join Example.host [js "/usr/bin"; substituteFirstFragment (js "gcc-11"); []])
    = true
  ∧ rewriteName (js "gcc-11") = js "c++filtfilt-11"
  ∧ findCxxFiltExe Example.host Example.disk (js "/usr/bin/gcc-11") = Some (js "c++filt").
Proof. vm_compute. repeat split; reflexivity. Qed.

(** ** The pipeline *)

Lemma run_app (host : Host) (disk : Disk) (l1 l2 : list Event) (w : World) :
  run host disk (l1 ++ l2) w = run host disk l2 (run host disk l1 w).
Proof. apply fold_left_app. Qed.

Lemma run_cons (host : Host) (disk : Disk) (e : Event) (l : list Event) (w : World) :
  run host disk (e :: l) w = run host disk l (step host disk e w).
Proof. reflexivity. Qed.

Lemma run_nil (host : Host) (disk : Disk) (w : World) : run host disk [] w = w.
Proof. reflexivity. Qed.

Section ProcessWrites.
Variables (p : nat) (w : World).

Lemma kill_calls : calls (kill p w) = calls w.
Proof. unfold kill. by destruct (procs w !! p). Qed.
Lemma kill_tokens : tokens (kill p w) = tokens w.
Proof. unfold kill. by destruct (procs w !! p). Qed.
Lemma kill_channel : channel (kill p w) = channel w.
Proof. unfold kill. by destruct (procs w !! p). Qed.
Lemma kill_length : length (procs (kill p w)) = length (procs w).
Proof. unfold kill. destruct (procs w !! p); [|done]. simpl. by rewrite length_insert. Qed.

Lemma kill_killed : p < length (procs w) → killed <$> procs (kill p w) !! p = Some true.
Proof.
  intros Hp. unfold kill. destruct (lookup_lt_is_Some_2 _ _ Hp) as [pr Hpr].
  rewrite Hpr. simpl. by rewrite list_lookup_insert_eq.
Qed.

Lemma kill_other (q : nat) : q ≠ p → procs (kill p w) !! q = procs w !! q.
Proof.
  intros Hq. unfold kill. destruct (procs w !! p); [|done].
  simpl. by rewrite list_lookup_insert_ne.
Qed.

Lemma kill_stdin (q : nat) : stdin <$> procs (kill p w) !! q = stdin <$> procs w !! q.
Proof.
  destruct (decide (q = p)) as [->|Hq]; [|by rewrite kill_other].
  unfold kill. destruct (procs w !! p) as [pr|] eqn:Hpr; [|by rewrite Hpr].
  simpl. rewrite list_lookup_insert_eq by (by eapply lookup_lt_Some). done.
Qed.

Lemma kill_keeps_killed (q : nat) :
  killed <$> procs w !! q = Some true → killed <$> procs (kill p w) !! q = Some true.
Proof.
  destruct (decide (q = p)) as [->|Hq]; [|by rewrite kill_other].
  intros Hk. apply kill_killed. destruct (procs w !! p) eqn:E; [|done].
  by eapply lookup_lt_Some.
Qed.

Variable chunk : jsstring.

Lemma writeStdin_calls : calls (writeStdin p chunk w) = calls w.
Proof. unfold writeStdin. by destruct (procs w !! p). Qed.
Lemma writeStdin_tokens : tokens (writeStdin p chunk w) = tokens w.
Proof. unfold writeStdin. by destruct (procs w !! p). Qed.
Lemma writeStdin_channel : channel (writeStdin p chunk w) = channel w.
Proof. unfold writeStdin. by destruct (procs w !! p). Qed.
Lemma writeStdin_length : length (procs (writeStdin p chunk w)) = length (procs w).
Proof.
  unfold writeStdin. destruct (procs w !! p); [|done]. simpl. by rewrite length_insert.
Qed.

Lemma writeStdin_stdin :
  stdin <$> procs (writeStdin p chunk w) !! p = (λ pr, stdin pr ++ [chunk]) <$> procs w !! p.
Proof.
  unfold writeStdin. destruct (procs w !! p) as [pr|] eqn:Hpr; [|by rewrite Hpr].
  simpl. rewrite list_lookup_insert_eq by (by eapply lookup_lt_Some). done.
Qed.

Lemma writeStdin_other (q : nat) :
  q ≠ p → procs (writeStdin p chunk w) !! q = procs w !! q.
Proof.
  intros Hq. unfold writeStdin. destruct (procs w !! p); [|done].
  simpl. by rewrite list_lookup_insert_ne.
Qed.

Lemma endStdin_calls : calls (endStdin p w) = calls w.
Proof. unfold endStdin. by destruct (procs w !! p). Qed.
Lemma endStdin_tokens : tokens (endStdin p w) = tokens w.
Proof. unfold endStdin. by destruct (procs w !! p). Qed.
Lemma endStdin_channel : channel (endStdin p w) = channel w.
Proof. unfold endStdin. by destruct (procs w !! p). Qed.
Lemma endStdin_length : length (procs (endStdin p w)) = length (procs w).
Proof.
  unfold endStdin. destruct (procs w !! p); [|done]. simpl. by rewrite length_insert.
Qed.
End ProcessWrites.

Create Rewrite HintDb world.
#[local] Hint Rewrite kill_calls kill_tokens kill_channel kill_length
  writeStdin_calls writeStdin_tokens writeStdin_channel writeStdin_length
  endStdin_calls endStdin_tokens endStdin_channel endStdin_length : world.

(** A world whose calls are those of [w] except for settled or well-formed
    ones, and whose process table did not shrink, has its frames spawned. *)
Lemma framesSpawned_update (w w' : World) :
  framesSpawned w →
  length (procs w) ≤ length (procs w') →
  (∀ r c, calls w' !! r = Some c →
          calls w !! r = Some c
          ∨ match call_state c with
            | Relaying f => cxxfilt f = S (cxx f) ∧ cxxfilt f < length (procs w')
            | _ => True
            end) →
  framesSpawned w'.
Proof.
  intros Hw Hlen Hcalls r this f Hr.
  destruct (Hcalls _ _ Hr) as [Hold|Hnew]; [|done].
  destruct (Hw _ _ _ Hold) as [? ?]. split; [done|lia].
Qed.

Lemma framesSpawned_setCall (r this : nat) (st : CallState) (w0 w : World) :
  framesSpawned w0 →
  calls w = calls w0 →
  length (procs w0) ≤ length (procs w) →
  match st with
  | Relaying f => cxxfilt f = S (cxx f) ∧ cxxfilt f < length (procs w)
  | _ => True
  end →
  framesSpawned (setCall r this st w).
Proof.
  intros Hw0 Hcalls Hlen Hst. apply (framesSpawned_update w0); [done|done|].
  intros r' c. simpl. rewrite Hcalls.
  intros [(-> & <- & _)|[_ ?]]%list_lookup_insert_Some; [by right|by left].
Qed.

Lemma framesSpawned_settle (r this : nat) (st : CallState) (w0 w : World) :
  framesSpawned w0 →
  calls w = calls w0 →
  length (procs w0) ≤ length (procs w) →
  match st with
  | Relaying f => cxxfilt f = S (cxx f) ∧ cxxfilt f < length (procs w)
  | _ => True
  end →
  framesSpawned (settle r this st w).
Proof. intros. unfold settle. by apply (framesSpawned_setCall _ _ _ w0). Qed.

Lemma framesSpawned_abort (r this : nat) (f : Frame) (e : Exn) (w : World) :
  framesSpawned w → framesSpawned (abort r this f e w).
Proof.
  intros Hw. unfold abort. apply (framesSpawned_settle _ _ _ w); [done| | |done].
  - by autorewrite with world.
  - by autorewrite with world.
Qed.

Lemma framesSpawned_same (w w' : World) :
  framesSpawned w → calls w' = calls w → length (procs w') = length (procs w) →
  framesSpawned w'.
Proof.
  intros Hw Hc Hl. apply (framesSpawned_update w); [done|lia|].
  intros r c. rewrite Hc. by left.
Qed.

Lemma framesSpawned_step (host : Host) (disk : Disk) (e : Event) (w : World) :
  framesSpawned w → framesSpawned (step host disk e w).
Proof.
  intros Hw. destruct e as [this src custom|r|r item|r item|r ev|r item|r item|r ev|r];
    simpl.
  - unfold compile. destruct (instances w !! this) as [db|]; [|done].
    destruct (get host src db) as [[cc|]|].
    + apply (framesSpawned_update w); [done|by destruct db as [[]]|].
      intros r c. simpl.
      replace (calls (cancelCurrent db w)) with (calls w) by (by destruct db as [[]]).
      intros [Hold|[_ Hnew]]%lookup_app_Some; [by left|].
      right. apply list_lookup_singleton_Some in Hnew as [_ <-]. done.
    + apply (framesSpawned_update w); [done|done|].
      intros r c. simpl. intros [Hold|[_ Hnew]]%lookup_app_Some; [by left|].
      right. apply list_lookup_singleton_Some in Hnew as [_ <-]. done.
    + apply (framesSpawned_update w); [done|done|].
      intros r c. simpl. intros [Hold|[_ Hnew]]%lookup_app_Some; [by left|].
      right. apply list_lookup_singleton_Some in Hnew as [_ <-]. done.
  - destruct (calls w !! r) as [[this [t cc custom|f|asm|x]]|] eqn:Hr; try done.
    unfold spawnBoth.
    destruct (if bool_decide (length custom ≠ 0) then custom else arguments cc)
      as [|compExe rest].
    { by apply (framesSpawned_settle _ _ _ w). }
    destruct (instances w !! this) as [db|]; [|done].
    destruct (getCxxFiltExe host disk compExe (cxxFiltExeCache db)) as [[exe|] cache].
    + apply (framesSpawned_setCall _ _ _ w); simpl; try done.
      * rewrite length_app. lia.
      * rewrite length_app. simpl. lia.
    + by apply (framesSpawned_settle _ _ _ w).
  - destruct (calls w !! r) as [[this [t cc custom|[t c x []]|asm|x]]|] eqn:Hr; try done.
    unfold relayCxx. destruct item as [chunk|].
    + destruct (isCancellationRequested _ w); [by apply framesSpawned_abort|].
      apply (framesSpawned_same w); [done| |]; by autorewrite with world.
    + destruct (Hw _ _ _ Hr). unfold setPhase.
      apply (framesSpawned_setCall _ _ _ w); autorewrite with world; done.
  - destruct (calls w !! r) as [[this [t cc custom|[t c x []]|asm|x]]|] eqn:Hr; try done.
    unfold checkCxx. destruct (checkStdErr _ _ _) as [[c'|[]] ch].
    + destruct (Hw _ _ _ Hr). by apply (framesSpawned_setCall _ _ _ w).
    + destruct (Hw _ _ _ Hr). by apply (framesSpawned_setCall _ _ _ w).
    + apply framesSpawned_abort. by apply (framesSpawned_same w).
  - destruct (calls w !! r) as [[this [t cc custom|[t c x []]|asm|x]]|] eqn:Hr; try done.
    unfold checkCxx. destruct ev as [code|]; [|done].
    destruct (checkStdErr _ _ _) as [[c'|[]] ch].
    + destruct (Hw _ _ _ Hr). by apply (framesSpawned_setCall _ _ _ w).
    + destruct (Hw _ _ _ Hr). by apply (framesSpawned_setCall _ _ _ w).
    + apply framesSpawned_abort. by apply (framesSpawned_same w).
  - destruct (calls w !! r) as [[this [t cc custom|[t c x []]|asm|x]]|] eqn:Hr; try done.
    unfold collectFilt. destruct item as [chunk|].
    + destruct (isCancellationRequested _ w); [by apply framesSpawned_abort|].
      destruct (Hw _ _ _ Hr). by apply (framesSpawned_setCall _ _ _ w).
    + destruct (Hw _ _ _ Hr). by apply (framesSpawned_setCall _ _ _ w).
  - destruct (calls w !! r) as [[this [t cc custom|[t c x []]|asm|x]]|] eqn:Hr; try done.
    unfold checkFilt. destruct (checkStdErr _ _ _) as [[c'|[]] ch].
    + destruct (Hw _ _ _ Hr). by apply (framesSpawned_setCall _ _ _ w).
    + by apply (framesSpawned_settle _ _ _ w).
    + apply framesSpawned_abort. by apply (framesSpawned_same w).
  - destruct (calls w !! r) as [[this [t cc custom|[t c x []]|asm|x]]|] eqn:Hr; try done.
    unfold checkFilt. destruct (checkStdErr _ _ _) as [[c'|[]] ch].
    + destruct (Hw _ _ _ Hr). by apply (framesSpawned_setCall _ _ _ w).
    + by apply (framesSpawned_settle _ _ _ w).
    + apply framesSpawned_abort. by apply (framesSpawned_same w).
  - destruct (calls w !! r) as [[this [t cc custom|f|asm|x]]|] eqn:Hr; try done;
      by apply (framesSpawned_same w).
Qed.

Lemma framesSpawned_run (host : Host) (disk : Disk) (events : list Event) (w : World) :
  framesSpawned w → framesSpawned (run host disk events w).
Proof.
  revert w. induction events as [|e events IH]; intros w Hw; [done|].
  simpl. apply IH. by apply framesSpawned_step.
Qed.

Lemma framesSpawned_no_calls (w : World) : calls w = [] → framesSpawned w.
Proof. intros Hc r this f. by rewrite Hc. Qed.

(** C6: in any world the event loop can reach, a chunk delivered to a call
    in one of the two relay loops is handled after a look at the call's
    token.  If the token is cancelled, the call is rejected with
    "operation cancelled", both child processes have been killed, and the
    chunk was not written; otherwise the chunk is written to the
    demangler's input (first loop) or appended to the collected text
    (second loop) and the call stays in its loop. *)
Theorem cancellation_checked_before_each_chunk (host : Host) (disk : Disk) (w0 : World)
    (events : list Event) (r this : nat) (f : Frame) (chunk : jsstring) :
  calls w0 = [] →
  calls (run host disk events w0) !! r = Some (mkCall this (Relaying f)) →
  let w := run host disk events w0 in
  match phase f with
  | RelayCxx =>
      let w' := step host disk (CxxStdout r (Some chunk)) w in
      if isCancellationRequested (ctok f) w
      then calls w' !! r = Some (mkCall this (Rejected OperationCancelled))
           ∧ killed <$> procs w' !! cxx f = Some true
           ∧ killed <$> procs w' !! cxxfilt f = Some true
           ∧ stdin <$> procs w' !! cxxfilt f = stdin <$> procs w !! cxxfilt f
      else calls w' !! r = Some (mkCall this (Relaying f))
           ∧ stdin <$> procs w' !! cxxfilt f
             = (λ pr, stdin pr ++ [chunk]) <$> procs w !! cxxfilt f
           ∧ procs w' !! cxx f = procs w !! cxx f
  | CollectFilt asm =>
      let w' := step host disk (FiltStdout r (Some chunk)) w in
      if isCancellationRequested (ctok f) w
      then calls w' !! r = Some (mkCall this (Rejected OperationCancelled))
           ∧ killed <$> procs w' !! cxx f = Some true
           ∧ killed <$> procs w' !! cxxfilt f = Some true
      else calls w' !! r
           = Some (mkCall this (Relaying (mkFrame (ctok f) (cxx f) (cxxfilt f)
                                                  (CollectFilt (asm ++ chunk)))))
           ∧ procs w' = procs w
  | _ => True
  end.
Proof.
  intros Hw0 Hr w.
  assert (Hspawned : framesSpawned w)
    by (by apply framesSpawned_run, framesSpawned_no_calls).
  destruct (Hspawned _ _ _ Hr) as [Hx Hlen].
  assert (Hrlen : r < length (calls w)) by (by eapply lookup_lt_Some).
  fold w in Hr. destruct f as [t c x ph]. simpl in *.
  assert (Hkilled : ∀ e,
            calls (abort r this (mkFrame t c x ph) e w) !! r = Some (mkCall this (Rejected e))
            ∧ killed <$> procs (abort r this (mkFrame t c x ph) e w) !! c = Some true
            ∧ killed <$> procs (abort r this (mkFrame t c x ph) e w) !! x = Some true
            ∧ stdin <$> procs (abort r this (mkFrame t c x ph) e w) !! x
              = stdin <$> procs w !! x).
  { intros e. unfold abort, settle. simpl. autorewrite with world.
    split; [by rewrite list_lookup_insert_eq|].
    split; [apply kill_keeps_killed, kill_killed; lia|].
    split; [apply kill_killed; autorewrite with world; lia|].
    by rewrite !kill_stdin. }
  destruct ph as [|pc|asm|asm pc]; try done.
  - simpl. rewrite Hr. unfold relayCxx.
    destruct (isCancellationRequested t w); [apply Hkilled|].
    autorewrite with world. split; [done|]. split; [apply writeStdin_stdin|].
    apply writeStdin_other. lia.
  - simpl. rewrite Hr. unfold collectFilt.
    destruct (isCancellationRequested t w); [by destruct (Hkilled OperationCancelled) as (?&?&?&?)|].
    simpl. by rewrite list_lookup_insert_eq.
Qed.

(** After the first call of the example has been superseded by a cancel
    request, its next compiler chunk rejects it and kills both processes;
    without the request the chunk reaches the demangler. *)
Lemma cancellation_checked_before_each_chunk_witness :
  let cancelled := run Example.host Example.disk
                     [Compile Example.db Example.mainUri []; Located 0; CancelRequested 0]
                     Example.opened in
  let relaying := run Example.host Example.disk
                    [Compile Example.db Example.mainUri []; Located 0] Example.opened in
  (calls (step Example.host Example.disk (CxxStdout 0 (Some (js "main:"))) cancelled) !! 0
   = Some (mkCall Example.db (Rejected OperationCancelled))
   ∧ killed <$> procs (step Example.host Example.disk (CxxStdout 0 (Some (js "main:")))
                            cancelled) !! 0 = Some true
   ∧ killed <$> procs (step Example.host Example.disk (CxxStdout 0 (Some (js "main:")))
                            cancelled) !! 1 = Some true
   ∧ stdin <$> procs (step Example.host Example.disk (CxxStdout 0 (Some (js "main:")))
                           cancelled) !! 1 = stdin <$> procs cancelled !! 1)
  ∧ (calls (step Example.host Example.disk (CxxStdout 0 (Some (js "main:"))) relaying) !! 0
     = Some (mkCall Example.db (Relaying (mkFrame 0 0 1 RelayCxx)))
     ∧ stdin <$> procs (step Example.host Example.disk (CxxStdout 0 (Some (js "main:")))
                             relaying) !! 1
       = (λ pr, stdin pr ++ [js "main:"]) <$> procs relaying !! 1
     ∧ procs (step Example.host Example.disk (CxxStdout 0 (Some (js "main:"))) relaying) !! 0
       = procs relaying !! 0).
Proof.
  intros cancelled relaying.
  assert (Hnone : calls Example.opened = []) by (vm_compute; reflexivity).
  assert (Hc1 : calls cancelled !! 0
                = Some (mkCall Example.db (Relaying (mkFrame 0 0 1 RelayCxx))))
    by (vm_compute; reflexivity).
  assert (Hc2 : calls relaying !! 0
                = Some (mkCall Example.db (Relaying (mkFrame 0 0 1 RelayCxx))))
    by (vm_compute; reflexivity).
  assert (Ht1 : isCancellationRequested 0 cancelled = true) by (vm_compute; reflexivity).
  assert (Ht2 : isCancellationRequested 0 relaying = false) by (vm_compute; reflexivity).
  pose proof (cancellation_checked_before_each_chunk Example.host Example.disk
                Example.opened _ 0 Example.db (mkFrame 0 0 1 RelayCxx) (js "main:")
                Hnone Hc1) as H1.
  pose proof (cancellation_checked_before_each_chunk Example.host Example.disk
                Example.opened _ 0 Example.db (mkFrame 0 0 1 RelayCxx) (js "main:")
                Hnone Hc2) as H2.
  cbv zeta in H1, H2. cbn [phase ctok cxx cxxfilt] in H1, H2.
  fold cancelled in H1. fold relaying in H2.
  rewrite Ht1 in H1. rewrite Ht2 in H2.
  exact (conj H1 H2).
Defined.

Section OneRun.
Variables (host : Host) (disk : Disk) (r this t c x : nat).

Lemma suspended_setPhase (ph ph' : Phase) (ch ch' : list OutputEvent) (w0 w : World) :
  suspended r this t c x ph ch w0 → calls w = calls w0 → tokens w = tokens w0 → channel w = ch' →
  suspended r this t c x ph' ch' (setPhase r this (mkFrame t c x ph) ph' w).
Proof.
  intros (Hr & Htok & _) Hc Ht Hch. unfold suspended, setPhase. simpl.
  rewrite Hc. split; [|split; [|done]].
  - rewrite list_lookup_insert_eq; [done|by eapply lookup_lt_Some].
  - unfold isCancellationRequested in *. simpl. by rewrite Ht.
Qed.

Lemma relay_chunk (ch : list OutputEvent) (chunk : jsstring) (w : World) :
  suspended r this t c x RelayCxx ch w → suspended r this t c x RelayCxx ch (step host disk (CxxStdout r (Some chunk)) w).
Proof.
  intros (Hr & Htok & Hch). simpl. rewrite Hr. unfold relayCxx. simpl. rewrite Htok.
  unfold suspended, isCancellationRequested in *.
  by autorewrite with world.
Qed.

Lemma relay_chunks (ch : list OutputEvent) (out : list jsstring) (w : World) :
  suspended r this t c x RelayCxx ch w →
  suspended r this t c x RelayCxx ch (run host disk (map (λ chunk, CxxStdout r (Some chunk)) out) w).
Proof.
  revert w. induction out as [|chunk out IH]; intros w Hw; [done|].
  simpl. by apply IH, relay_chunk.
Qed.

Lemma relay_end (ch : list OutputEvent) (w : World) :
  suspended r this t c x RelayCxx ch w →
  suspended r this t c x (CheckCxx (ReadStderr [])) ch (step host disk (CxxStdout r None) w).
Proof.
  intros Hw. pose proof Hw as (Hr & Htok & Hch). simpl. rewrite Hr. unfold relayCxx.
  apply (suspended_setPhase _ _ ch _ w); by autorewrite with world.
Qed.

Lemma cxx_stderr_chunks (ch : list OutputEvent) (err : list jsstring) (acc : jsstring)
    (w : World) :
  suspended r this t c x (CheckCxx (ReadStderr acc)) ch w →
  suspended r this t c x (CheckCxx (ReadStderr (acc ++ concat err))) ch
       (run host disk (map (λ chunk, CxxStderr r (Some chunk)) err) w).
Proof.
  revert acc w. induction err as [|chunk err IH]; intros acc w Hw.
  { simpl. by rewrite app_nil_r. }
  simpl. rewrite app_assoc. apply IH.
  pose proof Hw as (Hr & Htok & Hch). rewrite Hr. unfold checkCxx. simpl.
  by apply (suspended_setPhase _ _ ch _ w).
Qed.

Lemma cxx_stderr_end (ch : list OutputEvent) (acc : jsstring) (w : World) :
  suspended r this t c x (CheckCxx (ReadStderr acc)) ch w →
  suspended r this t c x (CheckCxx AwaitExit) (ch ++ report acc) (step host disk (CxxStderr r None) w).
Proof.
  intros Hw. pose proof Hw as (Hr & Htok & Hch). simpl. rewrite Hr.
  unfold checkCxx. simpl.
  apply (suspended_setPhase _ _ ch _ w); try done.
  simpl. rewrite Hch. unfold report. case_bool_decide; [done|by rewrite app_nil_r].
Qed.

Lemma cxx_exit (ch : list OutputEvent) (code : option Z) (w : World) :
  suspended r this t c x (CheckCxx AwaitExit) ch w →
  if truthy code
  then calls (step host disk (CxxExit r (Exited code)) w) !! r
       = Some (mkCall this (Rejected CompilationFailed))
       ∧ channel (step host disk (CxxExit r (Exited code)) w) = ch
  else suspended r this t c x (CollectFilt []) ch (step host disk (CxxExit r (Exited code)) w).
Proof.
  intros Hw. pose proof Hw as (Hr & Htok & Hch). simpl. rewrite Hr.
  unfold checkCxx. simpl. destruct (truthy code); simpl.
  - unfold abort, settle. simpl. autorewrite with world.
    split; [|done]. rewrite list_lookup_insert_eq; [done|by eapply lookup_lt_Some].
  - by apply (suspended_setPhase _ _ ch _ w).
Qed.

Lemma collect_chunks (ch : list OutputEvent) (out : list jsstring) (asm : jsstring)
    (w : World) :
  suspended r this t c x (CollectFilt asm) ch w →
  suspended r this t c x (CollectFilt (asm ++ concat out)) ch
       (run host disk (map (λ chunk, FiltStdout r (Some chunk)) out) w).
Proof.
  revert asm w. induction out as [|chunk out IH]; intros asm w Hw.
  { simpl. by rewrite app_nil_r. }
  simpl. rewrite app_assoc. apply IH.
  pose proof Hw as (Hr & Htok & Hch). rewrite Hr. unfold collectFilt. rewrite Htok.
  by apply (suspended_setPhase _ _ ch _ w).
Qed.

Lemma collect_end (ch : list OutputEvent) (asm : jsstring) (w : World) :
  suspended r this t c x (CollectFilt asm) ch w →
  suspended r this t c x (CheckFilt asm (ReadStderr [])) ch (step host disk (FiltStdout r None) w).
Proof.
  intros Hw. pose proof Hw as (Hr & Htok & Hch). simpl. rewrite Hr. unfold collectFilt.
  by apply (suspended_setPhase _ _ ch _ w).
Qed.

Lemma filt_stderr_chunks (ch : list OutputEvent) (err : list jsstring) (asm acc : jsstring)
    (w : World) :
  suspended r this t c x (CheckFilt asm (ReadStderr acc)) ch w →
  suspended r this t c x (CheckFilt asm (ReadStderr (acc ++ concat err))) ch
       (run host disk (map (λ chunk, FiltStderr r (Some chunk)) err) w).
Proof.
  revert acc w. induction err as [|chunk err IH]; intros acc w Hw.
  { simpl. by rewrite app_nil_r. }
  simpl. rewrite app_assoc. apply IH.
  pose proof Hw as (Hr & Htok & Hch). rewrite Hr. unfold checkFilt. simpl.
  by apply (suspended_setPhase _ _ ch _ w).
Qed.

Lemma filt_stderr_end (ch : list OutputEvent) (asm acc : jsstring) (w : World) :
  suspended r this t c x (CheckFilt asm (ReadStderr acc)) ch w →
  suspended r this t c x (CheckFilt asm AwaitExit) (ch ++ report acc) (step host disk (FiltStderr r None) w).
Proof.
  intros Hw. pose proof Hw as (Hr & Htok & Hch). simpl. rewrite Hr.
  unfold checkFilt. simpl.
  apply (suspended_setPhase _ _ ch _ w); try done.
  simpl. rewrite Hch. unfold report. case_bool_decide; [done|by rewrite app_nil_r].
Qed.

Lemma filt_exit (ch : list OutputEvent) (asm : jsstring) (code : option Z) (w : World) :
  suspended r this t c x (CheckFilt asm AwaitExit) ch w →
  calls (step host disk (FiltExit r (Exited code)) w) !! r
  = Some (mkCall this (if truthy code then Rejected CompilationFailed
                       else Resolved (postprocess host asm)))
  ∧ channel (step host disk (FiltExit r (Exited code)) w) = ch.
Proof.
  intros (Hr & Htok & Hch). simpl. rewrite Hr.
  unfold checkFilt. simpl. destruct (truthy code); simpl.
  - unfold abort, settle. simpl. autorewrite with world.
    split; [|done]. rewrite list_lookup_insert_eq; [done|by eapply lookup_lt_Some].
  - split; [|done]. rewrite list_lookup_insert_eq; [done|by eapply lookup_lt_Some].
Qed.

(** The events of the demangler half do nothing to a rejected call. *)
Lemma filtHalf_ignored (e : Exn) (out err : list jsstring) (code : option Z) (w : World) :
  calls w !! r = Some (mkCall this (Rejected e)) →
  run host disk (filtHalf r out err code) w = w.
Proof.
  intros Hr. unfold filtHalf.
  assert (Hout : ∀ l, run host disk (map (λ chunk, FiltStdout r (Some chunk)) l) w = w).
  { induction l as [|chunk l IH]; [done|]. simpl. by rewrite Hr. }
  assert (Herr : ∀ l, run host disk (map (λ chunk, FiltStderr r (Some chunk)) l) w = w).
  { induction l as [|chunk l IH]; [done|]. simpl. by rewrite Hr. }
assert (Hstep : ∀ item ev,
          step host disk (FiltStdout r item) w = w
          ∧ step host disk (FiltStderr r item) w = w
          ∧ step host disk (FiltExit r ev) w = w).
{ intros item ev. simpl. by rewrite Hr. }
rewrite !run_app, Hout, !run_cons, !run_nil.
rewrite (proj1 (Hstep None (Exited code))), Herr.
rewrite (proj1 (proj2 (Hstep None (Exited code)))).
apply (proj2 (proj2 (Hstep None (Exited code)))).
Qed.

Lemma cxxHalf_run (ch : list OutputEvent) (out err : list jsstring) (code : option Z)
    (w : World) :
  suspended r this t c x RelayCxx ch w →
  if truthy code
  then calls (run host disk (cxxHalf r out err code) w) !! r
       = Some (mkCall this (Rejected CompilationFailed))
       ∧ channel (run host disk (cxxHalf r out err code) w) = ch ++ report (concat err)
  else suspended r this t c x (CollectFilt []) (ch ++ report (concat err))
            (run host disk (cxxHalf r out err code) w).
Proof.
  intros Hw. unfold cxxHalf. rewrite !run_app.
  apply (relay_chunks _ out) in Hw. simpl (run _ _ [_] _).
  apply relay_end, (cxx_stderr_chunks _ err), cxx_stderr_end in Hw.
  simpl (run _ _ [_; _] _). simpl in Hw.
  by apply cxx_exit.
Qed.

Lemma filtHalf_run (ch : list OutputEvent) (out err : list jsstring) (code : option Z)
    (w : World) :
  suspended r this t c x (CollectFilt []) ch w →
  calls (run host disk (filtHalf r out err code) w) !! r
  = Some (mkCall this (if truthy code then Rejected CompilationFailed
                       else Resolved (postprocess host (concat out))))
  ∧ channel (run host disk (filtHalf r out err code) w) = ch ++ report (concat err).
Proof.
  intros Hw. unfold filtHalf. rewrite !run_app.
  apply (collect_chunks _ out) in Hw. simpl (run _ _ [_] _).
  apply collect_end, (filt_stderr_chunks _ err), filt_stderr_end in Hw.
  simpl (run _ _ [_; _] _). simpl in Hw.
  by apply filt_exit.
Qed.
End OneRun.

(** X30: a run whose token is never cancelled, fed the output of its two
    processes in the order in which the code reads it (for each process
    the standard output, then the standard error, then the exit), fails
    exactly when one of them exits with a non-zero status; whatever
    [checkStdErr] read from a standard error, a status of zero lets the run
    go on, and the run resolves with the filtered demangler output when
    both are zero.  Non-empty standard-error text read by [checkStdErr] is
    appended to the channel, which is then shown. *)
Theorem ordered_run_outcome (host : Host) (disk : Disk) (w : World)
    (r this : nat) (f : Frame)
    (out err : list jsstring) (code : option Z)
    (out' err' : list jsstring) (code' : option Z) :
  calls w !! r = Some (mkCall this (Relaying f)) →
  phase f = RelayCxx →
  isCancellationRequested (ctok f) w = false →
  let w' := run host disk (cxxHalf r out err code ++ filtHalf r out' err' code') w in
  calls w' !! r
  = Some (mkCall this
            (if truthy code || truthy code' then Rejected CompilationFailed
             else Resolved (postprocess host (concat out'))))
  ∧ channel w'
    = channel w ++ report (concat err) ++ (if truthy code then [] else report (concat err'))
  ∧ (code = Some 0%Z → code' = Some 0%Z →
     calls w' !! r = Some (mkCall this (Resolved (postprocess host (concat out')))))
  ∧ (truthy code || truthy code' = true
     ↔ (∃ z, code = Some z ∧ z ≠ 0%Z) ∨ (∃ z, code' = Some z ∧ z ≠ 0%Z)).
Proof.
  intros Hr Hph Htok w'. destruct f as [t c x ph]. simpl in *. subst ph.
  assert (Hmain :
    calls w' !! r
    = Some (mkCall this
              (if truthy code || truthy code' then Rejected CompilationFailed
               else Resolved (postprocess host (concat out'))))
    ∧ channel w'
      = channel w ++ report (concat err)
        ++ (if truthy code then [] else report (concat err'))).
  { subst w'. rewrite run_app.
    pose proof (cxxHalf_run host disk r this t c x (channel w) out err code w
                  (conj Hr (conj Htok eq_refl))) as Hcxx.
    destruct (truthy code); simpl.
    - destruct Hcxx as [Hrej Hch].
      rewrite (filtHalf_ignored host disk r this CompilationFailed) by done.
      by rewrite app_nil_r.
    - apply (filtHalf_run host disk r this t c x _ out' err' code') in Hcxx.
      by rewrite <- app_assoc in Hcxx. }
  destruct Hmain as [Hcall Hch]. repeat split; try done.
  - intros -> ->. by rewrite Hcall.
  - intros [H|H]%orb_prop; [left|right].
    + destruct code as [z|]; [|done]. exists z. split; [done|].
      simpl in H. by apply Z.eqb_neq, negb_true_iff.
    + destruct code' as [z|]; [|done]. exists z. split; [done|].
      simpl in H. by apply Z.eqb_neq, negb_true_iff.
  - intros [(z & -> & Hz)|(z & -> & Hz)]; simpl.
    + apply Z.eqb_neq in Hz. by rewrite Hz.
    + apply Z.eqb_neq in Hz. rewrite Hz. by rewrite orb_true_r.
Qed.

(** The first call of the example, with a warning on the compiler's
    standard error and status 0 from both processes, resolves; the warning
    is in the channel, followed by the request to show it. *)
Lemma ordered_run_outcome_witness :
  let relaying := run Example.host Example.disk
                    [Compile Example.db Example.mainUri []; Located 0] Example.opened in
  let w' := run Example.host Example.disk
              (cxxHalf 0 [js "main:"] [js "warning: unused"] (Some 0%Z)
               ++ filtHalf 0 [js "main:"] [] (Some 0%Z)) relaying in
  calls w' !! 0 = Some (mkCall Example.db (Resolved (js "main:")))
  ∧ channel w' = [AppendLine (js "warning: unused"); Show].
Proof.
  intros relaying w'.
  assert (Hcall : calls relaying !! 0
                  = Some (mkCall Example.db (Relaying (mkFrame 0 0 1 RelayCxx))))
    by (vm_compute; reflexivity).
  assert (Htok : isCancellationRequested (ctok (mkFrame 0 0 1 RelayCxx)) relaying = false)
    by (vm_compute; reflexivity).
  assert (Hchan : channel relaying = []) by (vm_compute; reflexivity).
  destruct (ordered_run_outcome Example.host Example.disk relaying 0 Example.db
              (mkFrame 0 0 1 RelayCxx)
              [js "main:"] [js "warning: unused"] (Some 0%Z)
              [js "main:"] [] (Some 0%Z) Hcall eq_refl Htok)
    as (_ & Hch & Hok & _).
  specialize (Hok eq_refl eq_refl). rewrite Hchan in Hch.
  split; [exact Hok|exact Hch].
Defined.

(** ** Standard error written while the output is relayed *)

(** A chunk of the compiler's standard error that arrives while its
    standard output is still relayed is seen by the ['data'] listener of
    [cxx.stderr] alone: the call, the channel and the rest of the world
    stay as they are. *)
Lemma stderr_during_relay_lost (host : Host) (disk : Disk) (w : World) (r this : nat)
    (f : Frame) (item : option jsstring) :
  calls w !! r = Some (mkCall this (Relaying f)) →
  phase f = RelayCxx →
  step host disk (CxxStderr r item) w = w.
Proof. intros Hr Hph. destruct f as [t c x ph]. simpl in *. subst ph. by rewrite Hr. Qed.

(** C7 at a compiler that writes its warning before its assembly output
    has ended, and exits with status 0 like the demangler: the run
    resolves, but [checkStdErr] finds the stream empty, so it appends
    nothing to the channel and does not show it.  The same warning written
    after the output has ended is appended and shown. *)
Theorem stderr_before_output_end_not_shown :
  let relaying := run Example.host Example.disk
                    [Compile Example.db Example.mainUri []; Located 0] Example.opened in
  let early := run Example.host Example.disk
                 ([CxxStderr 0 (Some (js "warning: unused"))]
                  ++ cxxHalf 0 [js "main:"] [] (Some 0%Z)
                  ++ filtHalf 0 [js "main:"] [] (Some 0%Z)) relaying in
  let late := run Example.host Example.disk
                (cxxHalf 0 [js "main:"] [js "warning: unused"] (Some 0%Z)
                 ++ filtHalf 0 [js "main:"] [] (Some 0%Z)) relaying in
  calls early !! 0 = Some (mkCall Example.db (Resolved (js "main:")))
  ∧ channel early = []
  ∧ calls late !! 0 = Some (mkCall Example.db (Resolved (js "main:")))
  ∧ channel late = [AppendLine (js "warning: unused"); Show].
Proof. vm_compute. repeat split; reflexivity. Qed.

(** ** Single-flight cancellation *)

Lemma isCancellationRequested_cancel (t : nat) (w : World) :
  t < length (tokens w) → isCancellationRequested t (cancel t w) = true.
Proof.
  intros Ht. unfold isCancellationRequested, cancel. simpl.
  by rewrite list_lookup_insert_eq.
Qed.


(** The [finally] block of [compile] clears the field even when a later
    call has installed its own token source there: after the rejection of
    the first of two calls the field is empty, so a third call finds nothing
    to cancel and the second call's token stays uncancelled. *)
Lemma finally_clears_later_token_source :
  let w := run Example.host Example.disk
             [Compile Example.db Example.mainUri []; Located 0;
              Compile Example.db Example.mainUri []; Located 1;
              CxxStdout 0 (Some (js "main:"))] Example.opened in
  calls w !! 0 = Some (mkCall Example.db (Rejected OperationCancelled))
  ∧ inFlight w 1 Example.db = true
  ∧ compileCancellationTokenSource <$> instances w !! Example.db = Some None
  ∧ isCancellationRequested 1
      (run Example.host Example.disk [Compile Example.db Example.mainUri []] w) = false.
Proof. vm_compute. repeat split; reflexivity. Qed.

(** * Further properties *)

(** ** ArgvSplitter *)

Lemma fold_left_invariant {A B : Type} (P : A → Prop) (f : A → B → A) (l : list B) (a : A) :
  P a → (∀ a b, P a → P (f a b)) → P (fold_left f l a).
Proof.
  intros Ha Hstep. revert a Ha. induction l as [|b l IH]; intros a Ha; [done|].
  simpl. apply IH. by apply Hstep.
Qed.

Lemma js_backslash : js "\" = [92%N].
Proof. reflexivity. Qed.
Lemma js_quote : js "'" = [39%N].
Proof. reflexivity. Qed.
Lemma js_space : js " " = [32%N].
Proof. reflexivity. Qed.

(** The body of the loop only ever appends non-empty slices of [str]. *)
Lemma splitBody_strs (str : jsstring) (st : SplitState) (ch : jsstring) :
  strs (splitBody str st ch) = strs st
  ∨ ∃ piece, strs (splitBody str st ch) = strs st ++ [piece]
             ∧ piece ≠ [] ∧ piece = slice str (strStart st) (i st).
Proof.
  destruct st as [q e ss i0 s0]. unfold splitBody, splitSwitch.
  destruct (decide (ch = js "\")); [by left|].
  destruct (decide (ch = js "'")).
  { destruct e; simpl; [by left|]. by destruct (decide (q = Some (js "'"))); left. }
  destruct (decide (ch = dquote)).
  { destruct e; simpl; [by left|]. by destruct (decide (q = Some dquote)); left. }
  destruct (decide (ch = js " ")); [|by left].
  destruct q; simpl; [by left|].
  case_bool_decide as Hlen; simpl; [|by left].
  right. eexists. split; [done|]. split; [|done].
  intros Hnil. rewrite Hnil in Hlen. simpl in Hlen. lia.
Qed.

(** X1: every token that [splitWhitespace] returns is a non-empty slice
    [str.slice(a, b)] of its input. *)
Theorem splitWhitespace_tokens_are_slices (str tok : jsstring) :
  tok ∈ splitWhitespace str → tok ≠ [] ∧ ∃ a b, tok = slice str a b.
Proof.
  set (P := λ st : SplitState, ∀ t, t ∈ strs st → t ≠ [] ∧ ∃ a b, t = slice str a b).
  assert (Hloop : P (splitLoop str)).
  { unfold splitLoop. apply fold_left_invariant.
    - intros t Ht. by apply elem_of_nil in Ht.
    - intros st ch Hst t Ht.
      destruct (splitBody_strs str st ch) as [Heq|(piece & Heq & Hne & Hpiece)];
        rewrite Heq in Ht; [by apply Hst|].
      apply elem_of_app in Ht as [Ht|Ht%list_elem_of_singleton]; [by apply Hst|].
      subst t. split; [done|]. by eexists _, _. }
  unfold splitWhitespace. case_bool_decide as Hlen; [|by apply Hloop].
  intros [Ht|Ht%list_elem_of_singleton]%elem_of_app; [by apply Hloop|].
  subst tok. split; [|by eexists _, _].
  intros Hnil. rewrite Hnil in Hlen. simpl in Hlen. lia.
Qed.

Lemma codePoints_cons (u : N) (s : jsstring) :
  codePoints (u :: s)
  = match s with
    | v :: rest' =>
        if isHighSurrogate u && isLowSurrogate v
        then [u; v] :: codePoints rest'
        else [u] :: codePoints s
    | [] => [[u]]
    end.
Proof. by destruct s. Qed.

(** Facts about the iterator, by induction on the length of the string. *)
Lemma codePoints_facts (n : nat) (s : jsstring) :
  length s ≤ n →
  length (codePoints s) ≤ length s
  ∧ (s ≠ [] → 0 < length (codePoints s))
  ∧ ∀ ch, ch ∈ codePoints s → ∀ u, u ∈ ch → u ∈ s.
Proof.
  revert s. induction n as [|n IH]; intros s Hn.
  { destruct s; [|simpl in Hn; lia]. repeat split; try done.
    intros ch Hch. by apply elem_of_nil in Hch. }
  destruct s as [|u [|v rest]].
  - repeat split; try done. intros ch Hch. by apply elem_of_nil in Hch.
  - simpl. repeat split; try lia. intros ch ->%list_elem_of_singleton. done.
  - rewrite codePoints_cons.
    destruct (isHighSurrogate u && isLowSurrogate v).
    + destruct (IH rest) as (Hlen & _ & Hin); [simpl in Hn; lia|].
      simpl. repeat split; try lia.
      intros ch [->|Hch]%elem_of_cons w Hw.
      * apply elem_of_cons in Hw as [->|Hw%list_elem_of_singleton]; [by left|].
        subst w. right. by left.
      * right. right. by eapply Hin.
    + destruct (IH (v :: rest)) as (Hlen & _ & Hin); [simpl in Hn |- *; lia|].
      simpl in *. repeat split; try lia.
      intros ch [->|Hch]%elem_of_cons w Hw.
      * apply list_elem_of_singleton in Hw as ->. by left.
      * right. by eapply Hin.
Qed.

Lemma codePoints_bmp (s : jsstring) :
  Forall (λ u, isHighSurrogate u = false) s → codePoints s = map (λ u, [u]) s.
Proof.
  induction s as [|u s IH]; intros Hs; [done|].
  apply Forall_cons in Hs as [Hu Hs]. rewrite codePoints_cons, Hu. simpl.
  destruct s; [done|]. by rewrite IH.
Qed.

Lemma splitBody_not_space (str : jsstring) (st : SplitState) (ch : jsstring) :
  ch ≠ js " " →
  strs (splitBody str st ch) = strs st
  ∧ strStart (splitBody str st ch) = strStart st
  ∧ i (splitBody str st ch) = i st + 1.
Proof.
  intros Hch. destruct st as [q e ss i0 s0]. unfold splitBody, splitSwitch.
  destruct (decide (ch = js "\")); [done|].
  destruct (decide (ch = js "'")).
  { destruct e; simpl; [done|]. by destruct (decide (q = Some (js "'"))). }
  destruct (decide (ch = dquote)).
  { destruct e; simpl; [done|]. by destruct (decide (q = Some dquote)). }
  by destruct (decide (ch = js " ")).
Qed.

(** X2: a string without a space character is never split: it comes back
    as one token, cut to as many code units as the string has code points;
    so a string without surrogate pairs comes back whole, and one with
    surrogate pairs loses one code unit at its end for every pair. *)
Theorem splitWhitespace_without_space (str : jsstring) :
  32%N ∉ str →
  splitWhitespace str
  = (if decide (str = []) then [] else [take (length (codePoints str)) str])
  ∧ (Forall (λ u, isHighSurrogate u = false) str → str ≠ [] → splitWhitespace str = [str]).
Proof.
  intros Hspace.
  assert (Hcps : ∀ ch, ch ∈ codePoints str → ch ≠ js " ").
  { intros ch Hch ->. apply Hspace.
    destruct (codePoints_facts (length str) str) as (_ & _ & Hin); [done|].
    apply (Hin _ Hch). rewrite js_space. by left. }
  assert (Hloop : ∀ cps st, (∀ ch, ch ∈ cps → ch ≠ js " ") →
            strs (fold_left (splitBody str) cps st) = strs st
            ∧ strStart (fold_left (splitBody str) cps st) = strStart st
            ∧ i (fold_left (splitBody str) cps st) = i st + length cps).
  { induction cps as [|ch cps IH]; intros st Hall; simpl; [by rewrite Nat.add_0_r|].
    destruct (splitBody_not_space str st ch) as (Hs & Hst & Hi); [apply Hall; by left|].
    destruct (IH (splitBody str st ch)) as (Hs' & Hst' & Hi');
      [intros c Hc; apply Hall; by right|].
    rewrite Hs', Hst', Hi', Hs, Hst, Hi. repeat split; lia. }
  destruct (Hloop (codePoints str) splitInit Hcps) as (Hs & Hst & Hi). simpl in *.
  assert (Hfirst : splitWhitespace str
                   = if decide (str = []) then [] else [take (length (codePoints str)) str]).
  { unfold splitWhitespace, splitLoop. rewrite Hs, Hst, Hi. unfold slice. simpl.
    rewrite Nat.sub_0_r.
    destruct (codePoints_facts (length str) str) as (Hlen & Hpos & _); [done|].
    case_decide as Hnil.
    - subst str. done.
    - specialize (Hpos Hnil). rewrite bool_decide_eq_true_2; [done|].
      rewrite length_take. destruct str; [done|]. simpl in *. lia. }
  split; [done|]. intros Hbmp Hne. rewrite Hfirst.
  rewrite decide_False by done. rewrite codePoints_bmp by done.
  by rewrite length_map, firstn_all.
Qed.

Lemma splitWhitespace_without_space_witness :
  splitWhitespace (js "-DNAME='x'")
  = (if decide (js "-DNAME='x'" = []) then []
     else [take (length (codePoints (js "-DNAME='x'"))) (js "-DNAME='x'")])
  ∧ (Forall (λ u, isHighSurrogate u = false) (js "-DNAME='x'") → js "-DNAME='x'" ≠ [] →
     splitWhitespace (js "-DNAME='x'") = [js "-DNAME='x'"]).
Proof.
  apply (splitWhitespace_without_space (js "-DNAME='x'")).
  vm_compute. intros H. repeat (apply elem_of_cons in H as [H|H]; [discriminate H|]).
  by apply elem_of_nil in H.
Defined.

Lemma slice_snoc (p q : jsstring) (u : N) (a : nat) :
  a ≤ length p →
  slice (p ++ u :: q) a (length p) = drop a p
  ∧ slice (p ++ u :: q) a (S (length p)) = drop a p ++ [u].
Proof.
  intros Ha. unfold slice. rewrite drop_app_le by done.
  assert (Hlen : length (drop a p) = length p - a) by apply length_drop.
  split.
  - rewrite <- Hlen. by rewrite take_app_length.
  - replace (S (length p) - a) with (length (drop a p) + 1) by lia.
    rewrite take_app_add. done.
Qed.

(** The loop on a plain character, outside quotes: a space closes the run
    in progress, any other character extends it. *)
Lemma splitBody_plain (str : jsstring) (e : bool) (ss : list jsstring) (i0 s0 : nat) (u : N) :
  plainUnit u →
  splitBody str (mkSplitState None e ss i0 s0) [u]
  = if decide (u = 32%N)
    then mkSplitState None e
           (if bool_decide (0 < length (slice str s0 i0)) then ss ++ [slice str s0 i0] else ss)
           (i0 + 1) (i0 + 1)
    else mkSplitState None e ss (i0 + 1) s0.
Proof.
  intros (Hb & Hq & Hd & _). unfold splitBody, splitSwitch.
  rewrite js_backslash, js_quote, js_space. unfold dquote.
  rewrite decide_False by (by intros [= ?]).
  rewrite decide_False by (by intros [= ?]).
  rewrite decide_False by (by intros [= ?]).
  destruct (decide (u = 32%N)) as [->|Hne].
  - by rewrite decide_True.
  - by rewrite decide_False by (by intros [= ?]).
Qed.

Lemma splitLoop_plain (str : jsstring) (q p : jsstring) (e : bool) (ss : list jsstring)
    (s0 : nat) :
  str = p ++ q → s0 ≤ length p → Forall plainUnit q →
  let st := fold_left (splitBody str) (map (λ u, [u]) q)
                      (mkSplitState None e ss (length p) s0) in
  (if bool_decide (0 < length (slice str (strStart st) (i st)))
   then strs st ++ [slice str (strStart st) (i st)] else strs st)
  = ss ++ fields q (drop s0 p).
Proof.
  revert p e ss s0. induction q as [|u q IH]; intros p e ss s0 Hstr Hs0 Hplain; simpl.
  - rewrite app_nil_r in Hstr. subst str. unfold slice.
    rewrite <- (length_drop p s0), firstn_all.
    case_bool_decide; [done|by rewrite app_nil_r].
  - apply Forall_cons in Hplain as [Hu Hplain].
    rewrite (splitBody_plain str e ss (length p) s0 u Hu).
    destruct (slice_snoc p q u s0 Hs0) as [Hcur Hnext]. rewrite <- Hstr in Hcur, Hnext.
    assert (Hstr' : str = (p ++ [u]) ++ q) by (by rewrite <- app_assoc).
    assert (Hlen' : length (p ++ [u]) = length p + 1) by (rewrite length_app; simpl; lia).
    destruct (decide (u = 32%N)) as [->|Hne].
    + rewrite Hcur. rewrite <- Hlen'.
      specialize (IH (p ++ [32%N]) e
                     (if bool_decide (0 < length (drop s0 p)) then ss ++ [drop s0 p] else ss)
                     (length (p ++ [32%N])) Hstr' (le_n _) Hplain).
      simpl in IH. rewrite IH. rewrite drop_all.
      destruct (bool_decide (0 < length (drop s0 p))); [by rewrite <- app_assoc|done].
    + rewrite <- Hlen'.
      specialize (IH (p ++ [u]) e ss s0 Hstr' ltac:(lia) Hplain).
      simpl in IH. rewrite IH. by rewrite drop_app_le.
Qed.

Lemma fields_no_space (s cur : jsstring) (tok : jsstring) :
  32%N ∉ cur → tok ∈ fields s cur → 32%N ∉ tok.
Proof.
  revert cur. induction s as [|u s IH]; intros cur Hcur; simpl.
  - case_bool_decide; [|by intros ?%elem_of_nil].
    by intros ->%list_elem_of_singleton.
  - destruct (decide (u = 32%N)) as [->|Hne].
    + intros [Hin|Hin]%elem_of_app.
      * case_bool_decide; [|by apply elem_of_nil in Hin].
        by apply list_elem_of_singleton in Hin as ->.
      * apply (IH []); [by intros ?%elem_of_nil|done].
    + apply IH. intros [Hin|Hin%list_elem_of_singleton]%elem_of_app; [done|].
      by subst u.
Qed.

Lemma fields_concat (s cur : jsstring) :
  concat (fields s cur) = cur ++ filter (λ u, u ≠ 32%N) s.
Proof.
  revert cur. induction s as [|u s IH]; intros cur; simpl.
  - case_bool_decide as Hlen; simpl; rewrite ?app_nil_r; [done|].
    destruct cur; [done|simpl in Hlen; lia].
  - destruct (decide (u = 32%N)) as [->|Hne].
    + rewrite concat_app, IH. rewrite filter_cons_False by (by intros ?).
      case_bool_decide as Hlen; simpl; rewrite ?app_nil_r; [done|].
      destruct cur; [done|simpl in Hlen; lia].
    + rewrite IH, filter_cons_True by done. by rewrite <- app_assoc.
Qed.

(** X3: on a string without backslashes, quotes and surrogate pairs the
    tokens are the maximal space-free runs, in order: no token holds a
    space, and the tokens put end to end are the string without its
    spaces. *)
Theorem splitWhitespace_plain (str : jsstring) :
  Forall plainUnit str →
  splitWhitespace str = fields str []
  ∧ (∀ tok, tok ∈ splitWhitespace str → 32%N ∉ tok)
  ∧ concat (splitWhitespace str) = filter (λ u, u ≠ 32%N) str.
Proof.
  intros Hplain.
  assert (Heq : splitWhitespace str = fields str []).
  { unfold splitWhitespace, splitLoop.
    rewrite codePoints_bmp by (eapply Forall_impl; [done|]; by intros u (_ & _ & _ & ?)).
    apply (splitLoop_plain str str [] false [] 0); [done|simpl; lia|done]. }
  split; [done|]. rewrite Heq. split.
  - intros tok. apply fields_no_space. by intros ?%elem_of_nil.
  - apply fields_concat.
Qed.

Lemma plainUnitb_Forall (s : jsstring) :
  forallb plainUnitb s = true → Forall plainUnit s.
Proof.
  intros Hall. apply Forall_forall. intros u Hu%list_elem_of_In.
  rewrite forallb_forall in Hall. specialize (Hall u Hu). unfold plainUnitb in Hall.
  repeat (apply andb_prop in Hall as [Hall ?]).
  repeat split; try (by apply N.eqb_neq, negb_true_iff).
  by apply negb_true_iff.
Qed.

Lemma splitWhitespace_plain_witness :
  splitWhitespace (js "  gcc  -O2 main.cpp ") = fields (js "  gcc  -O2 main.cpp ") []
  ∧ (∀ tok, tok ∈ splitWhitespace (js "  gcc  -O2 main.cpp ") → 32%N ∉ tok)
  ∧ concat (splitWhitespace (js "  gcc  -O2 main.cpp "))
    = filter (λ u, u ≠ 32%N) (js "  gcc  -O2 main.cpp ").
Proof.
  apply (splitWhitespace_plain (js "  gcc  -O2 main.cpp ")).
  apply plainUnitb_Forall. vm_compute. reflexivity.
Defined.

Lemma splitBody_inside_quotes (str : jsstring) (qs : jsstring) (e : bool)
    (ss : list jsstring) (i0 s0 : nat) (u : N) :
  plainUnit u →
  splitBody str (mkSplitState (Some qs) e ss i0 s0) [u]
  = mkSplitState (Some qs) e ss (i0 + 1) s0.
Proof.
  intros (Hb & Hq & Hd & _). unfold splitBody, splitSwitch.
  rewrite js_backslash, js_quote, js_space. unfold dquote.
  rewrite decide_False by (by intros [= ?]).
  rewrite decide_False by (by intros [= ?]).
  rewrite decide_False by (by intros [= ?]).
  by destruct (decide ([u] = [32%N])).
Qed.

Lemma splitBody_quote (str : jsstring) (q : option jsstring) (ss : list jsstring)
    (i0 s0 : nat) (qc : N) :
  qc = 39%N ∨ qc = 34%N →
  splitBody str (mkSplitState q false ss i0 s0) [qc]
  = mkSplitState (if decide (q = Some [qc]) then None else Some [qc]) false ss (i0 + 1) s0.
Proof.
  intros [->| ->]; unfold splitBody, splitSwitch;
    rewrite js_backslash, js_quote; unfold dquote.
  - rewrite decide_False by (by intros [= ?]). rewrite decide_True by done. simpl.
    by destruct (decide (q = Some [39%N])).
  - rewrite decide_False by (by intros [= ?]). rewrite decide_False by (by intros [= ?]).
    rewrite decide_True by done. simpl.
    by destruct (decide (q = Some [34%N])).
Qed.

(** X4: a text enclosed in one kind of quote, with no further quote,
    backslash or surrogate pair inside, is one token whatever spaces it
    holds, and the token keeps both quote characters. *)
Theorem splitWhitespace_quoted (qc : N) (mid : jsstring) :
  qc = 39%N ∨ qc = 34%N →
  Forall plainUnit mid →
  splitWhitespace ([qc] ++ mid ++ [qc]) = [[qc] ++ mid ++ [qc]].
Proof.
  intros Hqc Hmid. set (str := [qc] ++ mid ++ [qc]).
  assert (Hbmp : Forall (λ u, isHighSurrogate u = false) str).
  { assert (isHighSurrogate qc = false) by (by destruct Hqc as [->| ->]).
    unfold str. apply Forall_app. split; [by constructor|].
    apply Forall_app. split; [|by constructor].
    eapply Forall_impl; [done|]. by intros u (_ & _ & _ & ?). }
  assert (Hinside : ∀ l i0,
            Forall plainUnit l →
            fold_left (splitBody str) (map (λ u, [u]) l)
                      (mkSplitState (Some [qc]) false [] i0 0)
            = mkSplitState (Some [qc]) false [] (i0 + length l) 0).
  { induction l as [|u l IH]; intros i0 Hl; simpl; [by rewrite Nat.add_0_r|].
    apply Forall_cons in Hl as [Hu Hl].
    rewrite splitBody_inside_quotes by done. rewrite IH by done.
    f_equal. lia. }
  assert (Hloop : fold_left (splitBody str) (map (λ u, [u]) ([qc] ++ mid ++ [qc])) splitInit
                  = mkSplitState None false [] (length str) 0).
  { rewrite !map_app, !fold_left_app. simpl. unfold splitInit.
    rewrite splitBody_quote by done. rewrite decide_False by done.
    rewrite Hinside by done. rewrite splitBody_quote by done. rewrite decide_True by done.
    f_equal. unfold str. rewrite !length_app. simpl. lia. }
  unfold splitWhitespace, splitLoop. rewrite codePoints_bmp by done.
  fold str in Hloop. rewrite Hloop. simpl. unfold slice.
  rewrite Nat.sub_0_r. simpl. by rewrite firstn_all.
Qed.

Lemma splitWhitespace_quoted_witness :
  splitWhitespace ([39%N] ++ js "foo bar.cpp" ++ [39%N])
  = [[39%N] ++ js "foo bar.cpp" ++ [39%N]].
Proof.
  apply (splitWhitespace_quoted 39%N (js "foo bar.cpp")); [by left|].
  apply plainUnitb_Forall. vm_compute. reflexivity.
Defined.

(** ** CommandReconstructor *)

(** X5: the reconstructed vector is never empty.  Its first element is
    the directory joined with the first token, or with the text
    [undefined] when the entry has no token at all, and the flag filter
    never removes it, whatever that token is. *)
Theorem constructCompileCommand_first (command : jsstring) (args : list jsstring)
    (dir : jsstring) :
  ∃ rest,
    constructCompileCommand command args dir
    = (dir ++ js "/" ++ match effectiveArgs command args with
                         | a :: _ => a
                         | [] => js "undefined"
                         end) :: rest.
Proof.
  unfold constructCompileCommand.
  destruct (effectiveArgs command args) as [|a rest]; cbn [setFirst filterStateful];
    rewrite outfileFilter_joined; by eexists.
Qed.

Lemma outfileFilter_other (x : jsstring) :
  x ≠ js "-o" → x ≠ js "-c" → x ≠ js "-g" → outfileFilter false x = (true, false).
Proof.
  intros Ho Hc Hg. unfold outfileFilter. cbn [negb].
  rewrite (bool_decide_eq_false_2 (x = js "-o")) by done.
  by rewrite !bool_decide_eq_true_2 by done.
Qed.

Lemma filterStateful_outfile_id (l : list jsstring) :
  (∀ x, x ∈ l → x ≠ js "-o" ∧ x ≠ js "-c" ∧ x ≠ js "-g") →
  filterStateful outfileFilter false l = l.
Proof.
  induction l as [|x l IH]; intros Hl; [done|].
  destruct (Hl x) as (Ho & Hc & Hg); [by left|].
  cbn [filterStateful]. rewrite outfileFilter_other by done.
  rewrite IH; [done|]. intros y Hy. apply Hl. by right.
Qed.

(** X6: the flag filter leaves a vector as it is exactly when the vector
    holds none of [-o], [-c] and [-g]; in particular filtering twice is the
    same as filtering once. *)
Theorem outfileFilter_fixpoint (l : list jsstring) :
  (filterStateful outfileFilter false l = l
   ↔ (js "-o" ∉ l) ∧ (js "-c" ∉ l) ∧ (js "-g" ∉ l))
  ∧ filterStateful outfileFilter false (filterStateful outfileFilter false l)
    = filterStateful outfileFilter false l.
Proof.
  split; [split|].
  - intros Heq.
    assert (Hall : ∀ x, x ∈ l → x ≠ js "-o" ∧ x ≠ js "-c" ∧ x ≠ js "-g").
    { intros x Hx. rewrite <- Heq in Hx. by eapply filterStateful_outfile_elem. }
    repeat split; intros Hin; destruct (Hall _ Hin) as (? & ? & ?); done.
  - intros (Ho & Hc & Hg). apply filterStateful_outfile_id.
    intros x Hx. repeat split; by intros ->.
  - apply filterStateful_outfile_id. intros x Hx. by eapply filterStateful_outfile_elem.
Qed.

(** X7: an [-o] that is the last token is dropped and nothing else with
    it, whether or not the token before it was an [-o] as well. *)
Theorem outfileFilter_trailing_flag (pre : list jsstring) :
  filterStateful outfileFilter false (pre ++ [js "-o"])
  = filterStateful outfileFilter false pre.
Proof.
  rewrite filterStateful_app.
  destruct (filterFinal outfileFilter false pre); simpl; by rewrite app_nil_r.
Qed.

(** ** The index of a loaded database *)

Lemma indexByFile_snoc (l : list CompileCommand) (c : CompileCommand) :
  indexByFile (l ++ [c]) = <[file c := c]> (indexByFile l).
Proof. unfold indexByFile. by rewrite fold_left_app. Qed.

Lemma indexByFile_last_wins (l1 l2 : list CompileCommand) (c : CompileCommand) :
  (∀ c', c' ∈ l2 → file c' ≠ file c) →
  indexByFile (l1 ++ c :: l2) !! file c = Some c.
Proof.
  induction l2 as [|d l2 IH] using rev_ind; intros Hl2.
  - by rewrite indexByFile_snoc, lookup_insert_eq.
  - replace (l1 ++ c :: l2 ++ [d]) with ((l1 ++ c :: l2) ++ [d])
      by (by rewrite <- app_assoc).
    rewrite indexByFile_snoc.
    rewrite lookup_insert_ne; [|apply Hl2, elem_of_app; right; by left].
    apply IH. intros c' Hc'. apply Hl2, elem_of_app. by left.
Qed.

Lemma indexByFile_is_Some (l : list CompileCommand) (key : jsstring) :
  is_Some (indexByFile l !! key) ↔ key ∈ map file l.
Proof.
  induction l as [|c l IH] using rev_ind.
  - unfold indexByFile. simpl. rewrite lookup_empty. split; [by intros [? ?]|].
    by intros ?%elem_of_nil.
  - rewrite indexByFile_snoc, map_app, elem_of_app. simpl.
    destruct (decide (file c = key)) as [<-|Hne].
    + rewrite lookup_insert_eq. split; [intros _; right; by left|by eexists].
    + rewrite lookup_insert_ne by done. rewrite IH. split; [by left|].
      intros [?|Hin%list_elem_of_singleton]; [done|]. by destruct Hne.
Qed.

(** X8: a loaded index has one command per [file]: a key is present
    exactly when some entry of the file carries it, and when several
    entries carry the same [file] the last of them is the one stored. *)
Theorem load_last_entry_wins (host : Host) (disk : Disk) (uri : Uri)
    (ccommands : gmap jsstring CompileCommand) (text : jsstring)
    (entries : list CompileCommand) :
  load host disk uri = Some ccommands →
  readFile disk (uri_path uri) = Some text →
  JSON_parse host text = Some entries →
  (∀ key, is_Some (ccommands !! key) ↔ key ∈ map file entries)
  ∧ (∀ before c after,
        entries = before ++ c :: after →
        (∀ c', c' ∈ after → file c' ≠ file c) →
        ccommands !! file c = Some (preprocessEntry c)).
Proof.
  unfold load. intros Hload Hread Hparse. rewrite Hread in Hload. simpl in Hload.
  rewrite Hparse in Hload. simpl in Hload. injection Hload as <-.
  assert (Hfiles : map file (preprocess entries) = map file entries).
  { unfold preprocess. rewrite map_map. done. }
  split.
  - intros key. by rewrite indexByFile_is_Some, Hfiles.
  - intros before c after -> Hafter. unfold preprocess. rewrite map_app. simpl.
    apply (indexByFile_last_wins _ _ (preprocessEntry c)).
    intros c' (d & -> & Hd)%list_elem_of_fmap. simpl. by apply Hafter.
Qed.

Lemma load_last_entry_wins_witness :
  (∀ key, is_Some (indexByFile (preprocess [Example2.first; Example2.second]) !! key)
          ↔ key ∈ map file [Example2.first; Example2.second])
  ∧ (∀ before c after,
        [Example2.first; Example2.second] = before ++ c :: after →
        (∀ c', c' ∈ after → file c' ≠ file c) →
        indexByFile (preprocess [Example2.first; Example2.second]) !! file c
        = Some (preprocessEntry c)).
Proof.
  apply (load_last_entry_wins Example2.host (Example.diskWith Example2.text) Example2.uri
           (indexByFile (preprocess [Example2.first; Example2.second])) Example2.text
           [Example2.first; Example2.second]); reflexivity.
Defined.

(** ** The registry and the watcher *)

Lemma load_path_only (host : Host) (disk : Disk) (u u' : Uri) :
  uri_path u = uri_path u' → load host disk u = load host disk u'.
Proof. intros Hp. unfold load. by rewrite Hp. Qed.

Lemma for_unfold (host : Host) (disk : Disk) (srcUri : Uri) (w : World)
    (buildDirectory : jsstring) :
  keysAllocated w →
  resolvePath host (workspace host) (compilationDirectory host) srcUri = Some buildDirectory →
  let location := joinedLocation host buildDirectory (js "compile_commands.json") in
  let uri := mkUri (S (nextRef w)) location location in
  for_ host disk srcUri w
  = match load host disk uri with
    | None => (None, set_nextRef (S (S (nextRef w))) w)
    | Some commands =>
        (Some (S (S (nextRef w))),
         mkWorld (S (S (S (nextRef w)))) (tokens w)
                 (<[S (S (nextRef w)) := mkCompilationDatabase None uri commands ∅ true]>
                    (instances w))
                 (<[S (nextRef w) := S (S (nextRef w))]> (compdbs w))
                 (procs w) (calls w) (channel w))
    end.
Proof.
  intros Hkeys Hdir location uri. unfold for_. rewrite Hdir.
  pose proof (for_lookup_misses host buildDirectory
                (js "compile_commands.json") w Hkeys) as Hmiss.
  unfold Uri_joinPath_parse in *. cbn [fst snd] in Hmiss.
  cbv zeta. rewrite Hmiss. fold location. fold uri.
  by destruct (load host disk uri).
Qed.

Lemma for_no_workspace (host : Host) (disk : Disk) (srcUri : Uri) (w : World) :
  resolvePath host (workspace host) (compilationDirectory host) srcUri = None →
  for_ host disk srcUri w = (None, w).
Proof. intros Hdir. unfold for_. by rewrite Hdir. Qed.

(** X9: when the build directory cannot be resolved, or the database
    file cannot be read or parsed, [for] rejects and leaves the registry,
    the instances, the tokens and the calls as they were. *)
Theorem for_load_failure (host : Host) (disk : Disk) (srcUri : Uri) (w : World) :
  keysAllocated w →
  (∀ buildDirectory,
      resolvePath host (workspace host) (compilationDirectory host) srcUri
      = Some buildDirectory →
      load host disk
           (mkUri 0 (joinedLocation host buildDirectory (js "compile_commands.json")) [])
      = None) →
  fst (for_ host disk srcUri w) = None
  ∧ compdbs (snd (for_ host disk srcUri w)) = compdbs w
  ∧ instances (snd (for_ host disk srcUri w)) = instances w
  ∧ tokens (snd (for_ host disk srcUri w)) = tokens w
  ∧ calls (snd (for_ host disk srcUri w)) = calls w.
Proof.
  intros Hkeys Hload.
  destruct (resolvePath host (workspace host) (compilationDirectory host) srcUri)
    as [buildDirectory|] eqn:Hdir.
  - rewrite (for_unfold _ _ _ _ buildDirectory) by done. cbv zeta.
    rewrite (load_path_only host disk _ (mkUri 0 (joinedLocation host
               buildDirectory (js "compile_commands.json")) []))
      by done.
    by rewrite (Hload _ eq_refl).
  - by rewrite for_no_workspace.
Qed.

Lemma keysAllocated_start : keysAllocated Example.start.
Proof. intros key [c Hc]. cbn in Hc. by rewrite lookup_empty in Hc. Qed.

Lemma instancesAllocated_start : instancesAllocated Example.start.
Proof. intros r [c Hc]. cbn in Hc. by rewrite lookup_empty in Hc. Qed.

Lemma for_load_failure_witness :
  fst (for_ Example.host (Example.diskWith Example.truncatedText) Example.mainUri
            Example.start) = None
  ∧ compdbs (snd (for_ Example.host (Example.diskWith Example.truncatedText)
                       Example.mainUri Example.start)) = compdbs Example.start
  ∧ instances (snd (for_ Example.host (Example.diskWith Example.truncatedText)
                         Example.mainUri Example.start)) = instances Example.start
  ∧ tokens (snd (for_ Example.host (Example.diskWith Example.truncatedText)
                      Example.mainUri Example.start)) = tokens Example.start
  ∧ calls (snd (for_ Example.host (Example.diskWith Example.truncatedText)
                     Example.mainUri Example.start)) = calls Example.start.
Proof.
  apply (for_load_failure Example.host (Example.diskWith Example.truncatedText)
           Example.mainUri Example.start keysAllocated_start).
  intros buildDirectory Hdir. vm_compute in Hdir. injection Hdir as <-.
  vm_compute. reflexivity.
Defined.

(** X10: a successful [for] returns a new instance that holds the loaded
    index, has no token installed, watches its file and is registered; every
    entry and every instance that was there before is still there,
    unchanged. *)
Theorem for_adds_and_keeps (host : Host) (disk : Disk) (srcUri : Uri) (w : World)
    (compdb : nat) :
  keysAllocated w →
  instancesAllocated w →
  fst (for_ host disk srcUri w) = Some compdb →
  (∃ buildDirectory uri commands,
      resolvePath host (workspace host) (compilationDirectory host) srcUri
      = Some buildDirectory
      ∧ load host disk uri = Some commands
      ∧ uri_path uri = joinedLocation host buildDirectory (js "compile_commands.json")
      ∧ instances (snd (for_ host disk srcUri w)) !! compdb
        = Some (mkCompilationDatabase None uri commands ∅ true)
      ∧ compdbs (snd (for_ host disk srcUri w)) !! uri_ref uri = Some compdb
      ∧ instances w !! compdb = None)
  ∧ (∀ key c, compdbs w !! key = Some c →
              compdbs (snd (for_ host disk srcUri w)) !! key = Some c)
  ∧ (∀ r db, instances w !! r = Some db →
             instances (snd (for_ host disk srcUri w)) !! r = Some db)
  ∧ keysAllocated (snd (for_ host disk srcUri w))
  ∧ instancesAllocated (snd (for_ host disk srcUri w)).
Proof.
  intros Hkeys Hinst.
  destruct (resolvePath host (workspace host) (compilationDirectory host) srcUri)
    as [buildDirectory|] eqn:Hdir; [|by rewrite for_no_workspace].
  rewrite (for_unfold _ _ _ _ buildDirectory) by done. cbv zeta.
  destruct (load host disk _) as [commands|] eqn:Hload; [|done].
  intros [= <-]. cbn [snd compdbs instances nextRef].
  assert (Hfresh : instances w !! S (S (nextRef w)) = None).
  { destruct (instances w !! S (S (nextRef w))) eqn:E; [|done].
    assert (S (S (nextRef w)) < nextRef w) by (apply Hinst; by rewrite E). lia. }
  split; [|split; [|split; [|split]]].
  - eexists buildDirectory, _, commands. split; [done|]. split; [exact Hload|].
    split; [done|]. cbn [uri_ref]. by rewrite !lookup_insert_eq.
  - intros key c Hc. rewrite lookup_insert_ne; [done|].
    intros <-. assert (S (nextRef w) < nextRef w) by (apply Hkeys; by rewrite Hc). lia.
  - intros r db Hr. rewrite lookup_insert_ne; [done|].
    intros <-. by rewrite Hfresh in Hr.
  - intros key. cbn [compdbs nextRef]. intros [c Hc].
    destruct (decide (S (nextRef w) = key)) as [<-|Hne]; [lia|].
    rewrite lookup_insert_ne in Hc by done.
    assert (key < nextRef w) by (apply Hkeys; by rewrite Hc). lia.
  - intros r. cbn [instances nextRef]. intros [c Hc].
    destruct (decide (S (S (nextRef w)) = r)) as [<-|Hne]; [lia|].
    rewrite lookup_insert_ne in Hc by done.
    assert (r < nextRef w) by (apply Hinst; by rewrite Hc). lia.
Qed.

Lemma for_adds_and_keeps_witness :
  instances (snd (for_ Example.host Example.disk Example.mainUri Example.start)) !! 3
  = Some (mkCompilationDatabase None
            (mkUri 2 (js "/ws/compile_commands.json") (js "/ws/compile_commands.json"))
            (indexByFile (preprocess [Example.mainEntry])) ∅ true)
  ∧ keysAllocated (snd (for_ Example.host Example.disk Example.mainUri Example.start))
  ∧ instancesAllocated (snd (for_ Example.host Example.disk Example.mainUri Example.start)).
Proof.
  assert (Hfst : fst (for_ Example.host Example.disk Example.mainUri Example.start) = Some 3)
    by (vm_compute; reflexivity).
  destruct (for_adds_and_keeps Example.host Example.disk Example.mainUri Example.start 3
              keysAllocated_start instancesAllocated_start Hfst)
    as (_ & _ & _ & Hk & Hi).
  split; [vm_compute; reflexivity|]. by split.
Defined.

Lemma cancelCurrent_tokens_true (db : CompilationDatabase) (w : World) (t : nat) :
  tokens w !! t = Some true → tokens (cancelCurrent db w) !! t = Some true.
Proof.
  intros Ht. unfold cancelCurrent. destruct (compileCancellationTokenSource db) as [t0|]; [|done].
  simpl. destruct (decide (t0 = t)) as [->|Hne].
  - rewrite list_lookup_insert_eq; [done|by eapply lookup_lt_Some].
  - by rewrite list_lookup_insert_ne.
Qed.

Lemma cancelCurrent_cancels (db : CompilationDatabase) (w : World) (t : nat) :
  compileCancellationTokenSource db = Some t → t < length (tokens w) →
  tokens (cancelCurrent db w) !! t = Some true.
Proof.
  intros Ht Hlt. unfold cancelCurrent. rewrite Ht. simpl.
  by rewrite list_lookup_insert_eq.
Qed.

(** X11: a compile request for a file that the index does not hold is
    rejected with "cannot find compilation command" before anything else
    happens: no token is cancelled or created, no process is spawned, and
    the instance keeps its installed token source, so a compilation in
    flight goes on undisturbed. *)
Theorem compile_unknown_file (host : Host) (this : nat) (src : Uri)
    (customCommand : list jsstring) (w : World) (db : CompilationDatabase) :
  instances w !! this = Some db →
  get host src db = Some None →
  calls (compile host this src customCommand w)
  = calls w ++ [mkCall this (Rejected (CannotFindCommand src))]
  ∧ tokens (compile host this src customCommand w) = tokens w
  ∧ instances (compile host this src customCommand w) = instances w
  ∧ procs (compile host this src customCommand w) = procs w.
Proof. intros Hdb Hget. unfold compile. by rewrite Hdb, Hget. Qed.

Lemma compile_unknown_file_witness :
  calls (compile Example.host Example.db
                 (mkUri 0 (js "/ws/other.cpp") (js "/ws/other.cpp")) [] Example.opened)
  = calls Example.opened
    ++ [mkCall Example.db
               (Rejected (CannotFindCommand
                            (mkUri 0 (js "/ws/other.cpp") (js "/ws/other.cpp"))))]
  ∧ tokens (compile Example.host Example.db
                    (mkUri 0 (js "/ws/other.cpp") (js "/ws/other.cpp")) [] Example.opened)
    = tokens Example.opened
  ∧ instances (compile Example.host Example.db
                       (mkUri 0 (js "/ws/other.cpp") (js "/ws/other.cpp")) []
                       Example.opened)
    = instances Example.opened
  ∧ procs (compile Example.host Example.db
                   (mkUri 0 (js "/ws/other.cpp") (js "/ws/other.cpp")) [] Example.opened)
    = procs Example.opened.
Proof.
  apply (compile_unknown_file Example.host Example.db
           (mkUri 0 (js "/ws/other.cpp") (js "/ws/other.cpp")) [] Example.opened
           (mkCompilationDatabase None
              (mkUri 2 (js "/ws/compile_commands.json") (js "/ws/compile_commands.json"))
              (indexByFile (preprocess [Example.mainEntry])) ∅ true));
    vm_compute; reflexivity.
Defined.



Lemma dispose_compdbs (this : nat) (w : World) : compdbs (dispose this w) = compdbs w.
Proof.
  unfold dispose. destruct (instances w !! this) as [db|]; [|done].
  unfold cancelCurrent. by destruct (compileCancellationTokenSource db).
Qed.

Lemma dispose_tokens_true (this : nat) (w : World) (t : nat) :
  tokens w !! t = Some true → tokens (dispose this w) !! t = Some true.
Proof.
  intros Ht. unfold dispose. destruct (instances w !! this) as [db|]; [|done].
  simpl. by apply cancelCurrent_tokens_true.
Qed.

Lemma dispose_tokens_length (this : nat) (w : World) :
  length (tokens (dispose this w)) = length (tokens w).
Proof.
  unfold dispose. destruct (instances w !! this) as [db|]; [|done].
  unfold cancelCurrent. destruct (compileCancellationTokenSource db); [|done].
  simpl. by rewrite length_insert.
Qed.

Lemma dispose_instance (this : nat) (w : World) (c : nat) (db : CompilationDatabase) :
  instances w !! c = Some db →
  instances (dispose this w) !! c
  = Some (if decide (this = c) then withWatcher false (withCommands ∅ db) else db)
  ∧ (this = c → ∀ t, compileCancellationTokenSource db = Some t → t < length (tokens w) →
                     tokens (dispose this w) !! t = Some true).
Proof.
  intros Hc. unfold dispose. destruct (decide (this = c)) as [->|Hne].
  - rewrite Hc. simpl. rewrite lookup_insert_eq. split; [done|].
    intros _ t Ht Hlt. by apply cancelCurrent_cancels.
  - split; [|done]. destruct (instances w !! this) as [db'|] eqn:E; [|done].
    simpl. rewrite lookup_insert_ne by done.
    unfold cancelCurrent. by destruct (compileCancellationTokenSource db').
Qed.

Lemma cancelCurrent_instances (db : CompilationDatabase) (w : World) :
  instances (cancelCurrent db w) = instances w.
Proof. unfold cancelCurrent. by destruct (compileCancellationTokenSource db). Qed.

(** Disposing two instances gives the same world in either order. *)
Lemma dispose_comm (a b : nat) (w : World) :
  dispose a (dispose b w) = dispose b (dispose a w).
Proof.
  destruct (decide (a = b)) as [->|Hne]; [done|].
  unfold dispose.
  destruct (instances w !! a) as [da|] eqn:Ha; destruct (instances w !! b) as [db|] eqn:Hb;
    cbn [instances set_instances]; rewrite ?cancelCurrent_instances;
    rewrite ?lookup_insert_ne by done; rewrite ?Ha, ?Hb;
    cbn [instances set_instances]; rewrite ?cancelCurrent_instances; try done.
  unfold cancelCurrent, set_instances, cancel, set_tokens.
  destruct (compileCancellationTokenSource da) as [ta|],
           (compileCancellationTokenSource db) as [tb|]; simpl;
    f_equal; try (by apply insert_insert_ne).
  destruct (decide (ta = tb)) as [->|Ht]; [done|]. by apply list_insert_insert_ne.
Qed.

Lemma foldr_dispose (l : list nat) (w : World) (c : nat) (db : CompilationDatabase) :
  instances w !! c = Some db →
  compdbs (foldr dispose w l) = compdbs w
  ∧ length (tokens (foldr dispose w l)) = length (tokens w)
  ∧ instances (foldr dispose w l) !! c
    = Some (if decide (c ∈ l) then withWatcher false (withCommands ∅ db) else db)
  ∧ (c ∈ l → ∀ t, compileCancellationTokenSource db = Some t → t < length (tokens w) →
              tokens (foldr dispose w l) !! t = Some true).
Proof.
  intros Hc. induction l as [|a l (IHreg & IHlen & IHinst & IHtok)]; cbn [foldr].
  - rewrite decide_False by (by intros ?%elem_of_nil).
    repeat split; try done. by intros ?%elem_of_nil.
  - rewrite dispose_compdbs, dispose_tokens_length.
    destruct (dispose_instance a (foldr dispose w l) c _ IHinst) as [Hinst Htok].
    split; [done|]. split; [done|]. split.
    + rewrite Hinst. destruct (decide (a = c)) as [->|Hne].
      * rewrite (decide_True (P := c ∈ c :: l)) by (by left).
        by destruct (decide (c ∈ l)); destruct db.
      * destruct (decide (c ∈ l)) as [Hin|Hnin].
        -- by rewrite decide_True by (by right).
        -- rewrite decide_False; [done|]. intros [?|?]%elem_of_cons; by subst.
    + intros Hin t Ht Hlt. destruct (decide (c ∈ l)) as [Hl|Hl].
      * by apply dispose_tokens_true, IHtok.
      * apply elem_of_cons in Hin as [->|?]; [|done].
        apply Htok; [done|done|by rewrite IHlen].
Qed.

(** X13: the shutdown callback disposes every registered instance: each
    one ends with an empty index, a released watcher and a cancelled token,
    while the registry itself keeps its entries. *)
Theorem disposeAll_disposes (w : World) (key c : nat) (db : CompilationDatabase) :
  compdbs w !! key = Some c →
  instances w !! c = Some db →
  compdbs (disposeAll w) = compdbs w
  ∧ instances (disposeAll w) !! c = Some (withWatcher false (withCommands ∅ db))
  ∧ (∀ t, compileCancellationTokenSource db = Some t → t < length (tokens w) →
          isCancellationRequested t (disposeAll w) = true).
Proof.
  intros Hkey Hc. unfold disposeAll.
  assert (Hin : c ∈ map snd (map_to_list (compdbs w))).
  { apply list_elem_of_fmap. exists (key, c). split; [done|].
    by apply elem_of_map_to_list. }
  destruct (foldr_dispose (map snd (map_to_list (compdbs w))) w c db Hc)
    as (Hreg & _ & Hinst & Htok).
  rewrite decide_True in Hinst by done.
  split; [done|]. split; [done|].
  intros t Ht Hlt. unfold isCancellationRequested. by rewrite (Htok Hin t Ht Hlt).
Qed.

Lemma disposeAll_disposes_witness :
  compdbs (disposeAll Example.opened) = compdbs Example.opened
  ∧ (commands <$> instances (disposeAll Example.opened) !! Example.db) = Some ∅
  ∧ (watcher <$> instances (disposeAll Example.opened) !! Example.db) = Some false.
Proof.
  destruct (disposeAll_disposes Example.opened 2 Example.db
              (mkCompilationDatabase None
                 (mkUri 2 (js "/ws/compile_commands.json") (js "/ws/compile_commands.json"))
                 (indexByFile (preprocess [Example.mainEntry])) ∅ true))
    as (Hreg & Hinst & _); [vm_compute; reflexivity..|].
  split; [exact Hreg|]. by rewrite Hinst.
Defined.

(** ** Invariants of the event loop *)

Lemma isCancellationRequested_true (t : nat) (w : World) :
  isCancellationRequested t w = true ↔ tokens w !! t = Some true.
Proof.
  unfold isCancellationRequested. destruct (tokens w !! t) as [[]|]; simpl; split; try done.
Qed.

Lemma abort_tokens (r this : nat) (f : Frame) (e : Exn) (w : World) :
  tokens (abort r this f e w) = tokens w.
Proof. unfold abort, settle. simpl. by autorewrite with world. Qed.

Lemma cancel_tokens_true (t0 t : nat) (w : World) :
  tokens w !! t = Some true → tokens (cancel t0 w) !! t = Some true.
Proof.
  intros Ht. unfold cancel. simpl. destruct (decide (t0 = t)) as [->|Hne].
  - rewrite list_lookup_insert_eq; [done|by eapply lookup_lt_Some].
  - by rewrite list_lookup_insert_ne.
Qed.

Lemma step_tokens_true (host : Host) (disk : Disk) (e : Event) (w : World) (t : nat) :
  tokens w !! t = Some true → tokens (step host disk e w) !! t = Some true.
Proof.
  intros Ht. destruct e as [this src custom|r|r item|r item|r ev|r item|r item|r ev|r];
    simpl.
  - unfold compile. destruct (instances w !! this) as [db|]; [|done].
    destruct (get host src db) as [[cc|]|]; [|done..]. simpl.
    apply lookup_app_l_Some. by apply cancelCurrent_tokens_true.
  - destruct (calls w !! r) as [[this [t0 cc custom|f|asm|x]]|]; try done.
    unfold spawnBoth.
    destruct (if bool_decide (length custom ≠ 0) then custom else arguments cc)
      as [|compExe rest]; [done|].
    destruct (instances w !! this) as [db|]; [|done].
    by destruct (getCxxFiltExe host disk compExe (cxxFiltExeCache db)) as [[exe|] cache].
  - destruct (calls w !! r) as [[this [t0 cc custom|[t0 c x []]|asm|x]]|]; try done.
    unfold relayCxx. destruct item as [chunk|].
    + destruct (isCancellationRequested _ w); [by rewrite abort_tokens|].
      by autorewrite with world.
    + simpl. by autorewrite with world.
  - destruct (calls w !! r) as [[this [t0 cc custom|[t0 c x []]|asm|x]]|]; try done.
    unfold checkCxx. destruct (checkStdErr _ _ _) as [[c'|[]] ch]; try done.
    by rewrite abort_tokens.
  - destruct (calls w !! r) as [[this [t0 cc custom|[t0 c x []]|asm|x]]|]; try done.
    unfold checkCxx. destruct ev as [code|]; [|done]. destruct (checkStdErr _ _ _) as [[c'|[]] ch]; try done.
    by rewrite abort_tokens.
  - destruct (calls w !! r) as [[this [t0 cc custom|[t0 c x []]|asm|x]]|]; try done.
    unfold collectFilt. destruct item as [chunk|]; [|done].
    destruct (isCancellationRequested _ w); [by rewrite abort_tokens|done].
  - destruct (calls w !! r) as [[this [t0 cc custom|[t0 c x []]|asm|x]]|]; try done.
    unfold checkFilt. destruct (checkStdErr _ _ _) as [[c'|[]] ch]; try done.
    by rewrite abort_tokens.
  - destruct (calls w !! r) as [[this [t0 cc custom|[t0 c x []]|asm|x]]|]; try done.
    unfold checkFilt. destruct (checkStdErr _ _ _) as [[c'|[]] ch]; try done.
    by rewrite abort_tokens.
  - destruct (calls w !! r) as [[this [t0 cc custom|f|asm|x]]|]; try done;
      by apply cancel_tokens_true.
Qed.

(** X14: cancellation is irrevocable: whatever the event loop delivers
    afterwards, a token that has been cancelled stays cancelled. *)
Theorem cancellation_is_final (host : Host) (disk : Disk) (events : list Event) (w : World)
    (t : nat) :
  isCancellationRequested t w = true →
  isCancellationRequested t (run host disk events w) = true.
Proof.
  rewrite !isCancellationRequested_true. revert w.
  induction events as [|e events IH]; intros w Ht; [done|].
  simpl. apply IH. by apply step_tokens_true.
Qed.

Lemma step_calls_settled (host : Host) (disk : Disk) (e : Event) (w : World) (r : nat)
    (c : Call) :
  calls w !! r = Some c → settled (call_state c) = true →
  calls (step host disk e w) !! r = Some c.
Proof.
  intros Hr Hset.
  assert (Hother : ∀ r' c', r' ≠ r → (<[r' := c']> (calls w)) !! r = Some c)
    by (intros r' c' Hne; by rewrite list_lookup_insert_ne).
  assert (Hsame : ∀ r' (w' : World),
            (r' = r → w' = w) →
            (r' ≠ r → calls w' !! r = Some c) → calls w' !! r = Some c).
  { intros r' w' H1 H2. destruct (decide (r' = r)) as [Heq|Hne]; [|by apply H2].
    by rewrite (H1 Heq). }
  destruct e as [this src custom|r'|r' item|r' item|r' ev|r' item|r' item|r' ev|r'];
    simpl.
  - unfold compile. destruct (instances w !! this) as [db|]; [|done].
    destruct (get host src db) as [[cc|]|]; simpl; apply lookup_app_l_Some;
      unfold cancelCurrent; by destruct (compileCancellationTokenSource db).
  - apply (Hsame r'); [intros ->; rewrite Hr; by destruct c as [? []]|intros Hne].
    destruct (calls w !! r') as [[this [t0 cc custom|f|asm|x]]|]; try done.
    unfold spawnBoth.
    destruct (if bool_decide (length custom ≠ 0) then custom else arguments cc)
      as [|compExe rest]; [by apply Hother|].
    destruct (instances w !! this) as [db|]; [|done].
    destruct (getCxxFiltExe host disk compExe (cxxFiltExeCache db)) as [[exe|] cache];
      by apply Hother.
  - apply (Hsame r'); [intros ->; rewrite Hr; by destruct c as [? []]|intros Hne].
    destruct (calls w !! r') as [[this [t0 cc custom|[t0 c0 x []]|asm|x]]|]; try done.
    unfold relayCxx. destruct item as [chunk|].
    + destruct (isCancellationRequested _ w).
      * unfold abort, settle. simpl. autorewrite with world. by apply Hother.
      * by autorewrite with world.
    + simpl. autorewrite with world. by apply Hother.
  - apply (Hsame r'); [intros ->; rewrite Hr; by destruct c as [? []]|intros Hne].
    destruct (calls w !! r') as [[this [t0 cc custom|[t0 c0 x []]|asm|x]]|]; try done.
    unfold checkCxx. destruct (checkStdErr _ _ _) as [[c'|[]] ch]; try (by apply Hother).
    unfold abort, settle. simpl. autorewrite with world. by apply Hother.
  - apply (Hsame r'); [intros ->; rewrite Hr; by destruct c as [? []]|intros Hne].
    destruct (calls w !! r') as [[this [t0 cc custom|[t0 c0 x []]|asm|x]]|]; try done.
    unfold checkCxx. destruct ev as [code|]; [|done]. destruct (checkStdErr _ _ _) as [[c'|[]] ch]; try (by apply Hother).
    unfold abort, settle. simpl. autorewrite with world. by apply Hother.
  - apply (Hsame r'); [intros ->; rewrite Hr; by destruct c as [? []]|intros Hne].
    destruct (calls w !! r') as [[this [t0 cc custom|[t0 c0 x []]|asm|x]]|]; try done.
    unfold collectFilt. destruct item as [chunk|]; [|by apply Hother].
    destruct (isCancellationRequested _ w); [|by apply Hother].
    unfold abort, settle. simpl. autorewrite with world. by apply Hother.
  - apply (Hsame r'); [intros ->; rewrite Hr; by destruct c as [? []]|intros Hne].
    destruct (calls w !! r') as [[this [t0 cc custom|[t0 c0 x []]|asm|x]]|]; try done.
    unfold checkFilt. destruct (checkStdErr _ _ _) as [[c'|[]] ch]; try (by apply Hother).
    unfold abort, settle. simpl. autorewrite with world. by apply Hother.
  - apply (Hsame r'); [intros ->; rewrite Hr; by destruct c as [? []]|intros Hne].
    destruct (calls w !! r') as [[this [t0 cc custom|[t0 c0 x []]|asm|x]]|]; try done.
    unfold checkFilt. destruct (checkStdErr _ _ _) as [[c'|[]] ch]; try (by apply Hother).
    unfold abort, settle. simpl. autorewrite with world. by apply Hother.
  - by destruct (calls w !! r') as [[this [t0 cc custom|f|asm|x]]|].
Qed.

(** X15: a settled call is final: once a call of [compile] has resolved
    with its text or been rejected, no later event changes its outcome. *)
Theorem settled_calls_are_final (host : Host) (disk : Disk) (events : list Event)
    (w : World) (r : nat) (c : Call) :
  calls w !! r = Some c →
  settled (call_state c) = true →
  calls (run host disk events w) !! r = Some c.
Proof.
  revert w. induction events as [|e events IH]; intros w Hr Hset; [done|].
  simpl. apply IH; [|done]. by apply step_calls_settled.
Qed.

Lemma cancellation_is_final_witness :
  isCancellationRequested 0
    (run Example.host Example.disk
         (Example.relayAll 0 (js "main:") ++ [Compile Example.db Example.mainUri []])
         (run Example.host Example.disk
              [Compile Example.db Example.mainUri []; CancelRequested 0] Example.opened))
  = true.
Proof.
  apply (cancellation_is_final Example.host Example.disk).
  vm_compute. reflexivity.
Defined.

Lemma settled_calls_are_final_witness :
  calls (run Example.host Example.disk
             (Example.relayAll 0 (js "main:") ++ Example.finish 0 ++ [CancelRequested 0])
             (run Example.host Example.disk
                  [Compile Example.db Example.mainUri []; Located 0; CancelRequested 0;
                   CxxStdout 0 (Some (js "main:"))] Example.opened)) !! 0
  = Some (mkCall Example.db (Rejected OperationCancelled)).
Proof.
  apply (settled_calls_are_final Example.host Example.disk); [|reflexivity].
  vm_compute. reflexivity.
Defined.

Lemma endStdin_ended (p : nat) (w : World) :
  stdinEnded <$> procs (endStdin p w) !! p = (λ _, true) <$> procs w !! p.
Proof.
  unfold endStdin. destruct (procs w !! p) as [pr|] eqn:Hpr; [|by rewrite Hpr].
  simpl. rewrite list_lookup_insert_eq by (by eapply lookup_lt_Some). done.
Qed.

Lemma endStdin_stdin (p q : nat) (w : World) :
  stdin <$> procs (endStdin p w) !! q = stdin <$> procs w !! q.
Proof.
  unfold endStdin. destruct (procs w !! p) as [pr|] eqn:Hpr; [|done].
  simpl. destruct (decide (p = q)) as [<-|Hne].
  - rewrite list_lookup_insert_eq by (by eapply lookup_lt_Some). by rewrite Hpr.
  - by rewrite list_lookup_insert_ne.
Qed.

Lemma endStdin_killed (p q : nat) (w : World) :
  killed <$> procs (endStdin p w) !! q = killed <$> procs w !! q.
Proof.
  unfold endStdin. destruct (procs w !! p) as [pr|] eqn:Hpr; [|done].
  simpl. destruct (decide (p = q)) as [<-|Hne].
  - rewrite list_lookup_insert_eq by (by eapply lookup_lt_Some). by rewrite Hpr.
  - by rewrite list_lookup_insert_ne.
Qed.

Lemma writeStdin_killed (p q : nat) (chunk : jsstring) (w : World) :
  killed <$> procs (writeStdin p chunk w) !! q = killed <$> procs w !! q.
Proof.
  unfold writeStdin. destruct (procs w !! p) as [pr|] eqn:Hpr; [|done].
  simpl. destruct (decide (p = q)) as [<-|Hne].
  - rewrite list_lookup_insert_eq by (by eapply lookup_lt_Some). by rewrite Hpr.
  - by rewrite list_lookup_insert_ne.
Qed.

(** X16: the relay is faithful: when the token stays uncancelled, the
    demangler's input receives exactly the compiler's output chunks, in
    their order, after what it held before, and is then closed; no process
    is killed on the way, and the call goes on to wait for the compiler's
    standard error. *)
Theorem relay_delivers_chunks (host : Host) (disk : Disk) (r this t c x : nat)
    (ch : list OutputEvent) (out : list jsstring) (w : World) :
  suspended r this t c x RelayCxx ch w →
  let w' := run host disk
              (map (λ chunk, CxxStdout r (Some chunk)) out ++ [CxxStdout r None]) w in
  stdin <$> procs w' !! x = (λ pr, stdin pr ++ out) <$> procs w !! x
  ∧ stdinEnded <$> procs w' !! x = (λ _, true) <$> procs w !! x
  ∧ (∀ p, killed <$> procs w' !! p = killed <$> procs w !! p)
  ∧ suspended r this t c x (CheckCxx (ReadStderr [])) ch w'.
Proof.
  intros Hw w'. subst w'. rewrite run_app.
  assert (Hchunks : ∀ l w0,
            suspended r this t c x RelayCxx ch w0 →
            stdin <$> procs (run host disk (map (λ chunk, CxxStdout r (Some chunk)) l) w0)
                     !! x
            = (λ pr, stdin pr ++ l) <$> procs w0 !! x
            ∧ (stdinEnded <$> procs (run host disk
                                         (map (λ chunk, CxxStdout r (Some chunk)) l) w0) !! x
               = stdinEnded <$> procs w0 !! x)
            ∧ (∀ p, killed <$> procs (run host disk
                                          (map (λ chunk, CxxStdout r (Some chunk)) l) w0)
                               !! p
                    = killed <$> procs w0 !! p)).
  { induction l as [|chunk l IH]; intros w0 Hw0.
    - simpl. split; [|done]. destruct (procs w0 !! x); [|done]. simpl.
      by rewrite app_nil_r.
    - rewrite map_cons, run_cons.
      destruct (IH _ (relay_chunk host disk r this t c x ch chunk w0 Hw0))
        as (Hin & Hend & Hkill).
      destruct Hw0 as (Hr & Htok & _).
      assert (Hstep : step host disk (CxxStdout r (Some chunk)) w0 = writeStdin x chunk w0).
      { simpl. rewrite Hr. unfold relayCxx. simpl. by rewrite Htok. }
      rewrite Hstep in Hin, Hend, Hkill. rewrite Hstep.
      split; [|split].
      + rewrite Hin. unfold writeStdin.
        destruct (procs w0 !! x) as [pr|] eqn:Hpr; [|by rewrite Hpr].
        simpl. rewrite list_lookup_insert_eq by (by eapply lookup_lt_Some). simpl.
        by rewrite <- app_assoc.
      + rewrite Hend. unfold writeStdin.
        destruct (procs w0 !! x) as [pr|] eqn:Hpr; [|by rewrite Hpr].
        simpl. rewrite list_lookup_insert_eq by (by eapply lookup_lt_Some). done.
      + intros p. by rewrite Hkill, writeStdin_killed. }
  destruct (Hchunks out w Hw) as (Hin & Hend & Hkill).
  pose proof (relay_chunks host disk r this t c x ch out w Hw) as Hw1.
  rewrite run_cons, run_nil.
  pose proof (relay_end host disk r this t c x ch _ Hw1) as Hw2.
  destruct Hw1 as (Hr1 & Htok1 & _).
  assert (Hstep : ∀ p,
            procs (step host disk (CxxStdout r None)
                        (run host disk (map (λ chunk, CxxStdout r (Some chunk)) out) w)) !! p
            = procs (endStdin x
                        (run host disk (map (λ chunk, CxxStdout r (Some chunk)) out) w)) !! p).
  { intros p. simpl. by rewrite Hr1. }
  split; [|split; [|split]]; try done.
  - rewrite Hstep, endStdin_stdin. exact Hin.
  - rewrite Hstep, endStdin_ended.
    destruct (procs _ !! x) eqn:E1; destruct (procs w !! x) eqn:E2; done.
  - intros p. rewrite Hstep, endStdin_killed. apply Hkill.
Qed.

Lemma relay_delivers_chunks_witness :
  let relaying := run Example.host Example.disk
                    [Compile Example.db Example.mainUri []; Located 0] Example.opened in
  let w' := run Example.host Example.disk
              (map (λ chunk, CxxStdout 0 (Some chunk)) [js "main:"; js " ret"]
               ++ [CxxStdout 0 None]) relaying in
  stdin <$> procs w' !! 1 = Some [js "main:"; js " ret"]
  ∧ stdinEnded <$> procs w' !! 1 = Some true
  ∧ killed <$> procs w' !! 0 = Some false
  ∧ killed <$> procs w' !! 1 = Some false.
Proof.
  intros relaying w'.
  assert (Hsusp : suspended 0 Example.db 0 0 1 RelayCxx [] relaying)
    by (repeat split; vm_compute; reflexivity).
  assert (Hfilt : procs relaying !! 1 = Some (mkProc (js "c++filt") [] None [] false false))
    by (vm_compute; reflexivity).
  assert (Hk0 : killed <$> procs relaying !! 0 = Some false) by (vm_compute; reflexivity).
  destruct (relay_delivers_chunks Example.host Example.disk 0 Example.db 0 0 1 []
              [js "main:"; js " ret"] relaying Hsusp) as (Hin & Hend & Hkill & _).
  fold w' in Hin, Hend, Hkill. rewrite Hfilt in Hin, Hend.
  split; [exact Hin|]. split; [exact Hend|].
  split; [by rewrite Hkill|]. by rewrite Hkill, Hfilt.
Defined.

Lemma set_channel_id (w : World) : set_channel (channel w) w = w.
Proof. by destruct w. Qed.

Lemma compiler_error_ignored (host : Host) (disk : Disk) (r : nat) (w : World) :
  step host disk (CxxExit r ErrorEvent) w = w.
Proof.
  simpl. by destruct (calls w !! r) as [[this [t cc custom|[t c x [|pc|asm|asm pc]]|asm|e]]|].
Qed.

(** X17: an ['error'] event of the demangler, delivered while the run
    waits for the demangler to exit, fails the run with "compilation
    failed" and kills both processes, in any world the event loop can
    reach.  An ['error'] event of the compiler does not: the listener of
    [cxx.on('error', ...)] throws before the listener of [onExit] is
    reached, and the world stays as it is. *)
Theorem process_error_fails_run (host : Host) (disk : Disk) (w0 : World)
    (events : list Event) (r this : nat) (f : Frame) :
  calls w0 = [] →
  calls (run host disk events w0) !! r = Some (mkCall this (Relaying f)) →
  let w := run host disk events w0 in
  step host disk (CxxExit r ErrorEvent) w = w
  ∧ ∀ asm,
      phase f = CheckFilt asm AwaitExit →
      let w' := step host disk (FiltExit r ErrorEvent) w in
      calls w' !! r = Some (mkCall this (Rejected CompilationFailed))
      ∧ killed <$> procs w' !! cxx f = Some true
      ∧ killed <$> procs w' !! cxxfilt f = Some true.
Proof.
  intros Hw0 Hr w. split; [apply compiler_error_ignored|]. intros asm Hph.
  assert (Hspawned : framesSpawned w)
    by (by apply framesSpawned_run, framesSpawned_no_calls).
  destruct (Hspawned _ _ _ Hr) as [Hx Hlen].
  assert (Hrlen : r < length (calls w)) by (by eapply lookup_lt_Some).
  fold w in Hr. destruct f as [t c x ph]. cbn [phase ctok cxx cxxfilt] in *. subst ph.
  assert (Hstep : step host disk (FiltExit r ErrorEvent) w
                  = abort r this (mkFrame t c x (CheckFilt asm AwaitExit))
                          CompilationFailed w)
    by (simpl; rewrite Hr; unfold checkFilt; simpl; by rewrite set_channel_id).
  cbv zeta. rewrite Hstep.
  unfold abort, settle. simpl. autorewrite with world.
  split; [by rewrite list_lookup_insert_eq|].
  split; [apply kill_keeps_killed, kill_killed; lia|].
  apply kill_killed; autorewrite with world; lia.
Qed.

Lemma process_error_fails_run_witness :
  let waiting := run Example.host Example.disk
                   [Compile Example.db Example.mainUri []; Located 0;
                    CxxStdout 0 None; CxxStderr 0 None; CxxExit 0 (Exited (Some 0%Z));
                    FiltStdout 0 None; FiltStderr 0 None] Example.opened in
  step Example.host Example.disk (CxxExit 0 ErrorEvent) waiting = waiting
  ∧ calls (step Example.host Example.disk (FiltExit 0 ErrorEvent) waiting) !! 0
    = Some (mkCall Example.db (Rejected CompilationFailed))
  ∧ killed <$> procs (step Example.host Example.disk (FiltExit 0 ErrorEvent) waiting) !! 0
    = Some true
  ∧ killed <$> procs (step Example.host Example.disk (FiltExit 0 ErrorEvent) waiting) !! 1
    = Some true.
Proof.
  intros waiting.
  assert (Hnone : calls Example.opened = []) by (vm_compute; reflexivity).
  assert (Hcall : calls waiting !! 0
                  = Some (mkCall Example.db
                            (Relaying (mkFrame 0 0 1 (CheckFilt [] AwaitExit)))))
    by (vm_compute; reflexivity).
  destruct (process_error_fails_run Example.host Example.disk Example.opened _ 0 Example.db
              (mkFrame 0 0 1 (CheckFilt [] AwaitExit)) Hnone Hcall) as [Hcxx Hfilt].
  split; [exact Hcxx|]. exact (Hfilt [] eq_refl).
Defined.

Lemma step_calls_elsewhere (host : Host) (disk : Disk) (e : Event) (w : World) (r : nat)
    (c : Call) :
  calls w !! r = Some c → target e ≠ Some r →
  calls (step host disk e w) !! r = Some c.
Proof.
  intros Hr Htarget.
  assert (Hother : ∀ r' c', r' ≠ r → (<[r' := c']> (calls w)) !! r = Some c)
    by (intros r' c' Hne; by rewrite list_lookup_insert_ne).
  destruct e as [this src custom|r'|r' item|r' item|r' ev|r' item|r' item|r' ev|r'];
    simpl in *.
  - unfold compile. destruct (instances w !! this) as [db|]; [|done].
    destruct (get host src db) as [[cc|]|]; simpl; apply lookup_app_l_Some;
      unfold cancelCurrent; by destruct (compileCancellationTokenSource db).
  - assert (Hne : r' ≠ r) by congruence.
    destruct (calls w !! r') as [[this [t0 cc custom|f|asm|x]]|]; try done.
    unfold spawnBoth.
    destruct (if bool_decide (length custom ≠ 0) then custom else arguments cc)
      as [|compExe rest]; [by apply Hother|].
    destruct (instances w !! this) as [db|]; [|done].
    destruct (getCxxFiltExe host disk compExe (cxxFiltExeCache db)) as [[exe|] cache];
      by apply Hother.
  - assert (Hne : r' ≠ r) by congruence.
    destruct (calls w !! r') as [[this [t0 cc custom|[t0 c0 x []]|asm|x]]|]; try done.
    unfold relayCxx. destruct item as [chunk|].
    + destruct (isCancellationRequested _ w).
      * unfold abort, settle. simpl. autorewrite with world. by apply Hother.
      * by autorewrite with world.
    + simpl. autorewrite with world. by apply Hother.
  - assert (Hne : r' ≠ r) by congruence.
    destruct (calls w !! r') as [[this [t0 cc custom|[t0 c0 x []]|asm|x]]|]; try done.
    unfold checkCxx. destruct (checkStdErr _ _ _) as [[c'|[]] ch]; try (by apply Hother).
    unfold abort, settle. simpl. autorewrite with world. by apply Hother.
  - assert (Hne : r' ≠ r) by congruence.
    destruct (calls w !! r') as [[this [t0 cc custom|[t0 c0 x []]|asm|x]]|]; try done.
    unfold checkCxx. destruct ev as [code|]; [|done]. destruct (checkStdErr _ _ _) as [[c'|[]] ch]; try (by apply Hother).
    unfold abort, settle. simpl. autorewrite with world. by apply Hother.
  - assert (Hne : r' ≠ r) by congruence.
    destruct (calls w !! r') as [[this [t0 cc custom|[t0 c0 x []]|asm|x]]|]; try done.
    unfold collectFilt. destruct item as [chunk|]; [|by apply Hother].
    destruct (isCancellationRequested _ w); [|by apply Hother].
    unfold abort, settle. simpl. autorewrite with world. by apply Hother.
  - assert (Hne : r' ≠ r) by congruence.
    destruct (calls w !! r') as [[this [t0 cc custom|[t0 c0 x []]|asm|x]]|]; try done.
    unfold checkFilt. destruct (checkStdErr _ _ _) as [[c'|[]] ch]; try (by apply Hother).
    unfold abort, settle. simpl. autorewrite with world. by apply Hother.
  - assert (Hne : r' ≠ r) by congruence.
    destruct (calls w !! r') as [[this [t0 cc custom|[t0 c0 x []]|asm|x]]|]; try done.
    unfold checkFilt. destruct (checkStdErr _ _ _) as [[c'|[]] ch]; try (by apply Hother).
    unfold abort, settle. simpl. autorewrite with world. by apply Hother.
  - by destruct (calls w !! r') as [[this [t0 cc custom|f|asm|x]]|].
Qed.

Lemma kill_instances (p : nat) (w : World) : instances (kill p w) = instances w.
Proof. unfold kill. by destruct (procs w !! p). Qed.

Lemma settle_field (r this : nat) (st : CallState) (w0 w : World) (db : CompilationDatabase) :
  instances w0 !! this = Some db → instances w = instances w0 →
  compileCancellationTokenSource <$> instances (settle r this st w) !! this = Some None.
Proof.
  intros Hdb Hw. unfold settle. simpl. by rewrite lookup_alter_eq, Hw, Hdb.
Qed.

Lemma abort_field (r this : nat) (f : Frame) (e : Exn) (w0 w : World)
    (db : CompilationDatabase) :
  instances w0 !! this = Some db → instances w = instances w0 →
  compileCancellationTokenSource <$> instances (abort r this f e w) !! this = Some None.
Proof.
  intros Hdb Hw. unfold abort. apply (settle_field _ _ _ w0 _ db); [done|].
  by rewrite !kill_instances.
Qed.

(** X18: whenever a started call settles, the instance's token-source
    field is empty afterwards, whichever token source it held before: the
    [finally] block of [compile] does not check that the field still holds
    the call's own source. *)
Theorem finally_clears_field (host : Host) (disk : Disk) (e : Event) (w : World)
    (r this : nat) (st : CallState) (db : CompilationDatabase) (c' : Call) :
  calls w !! r = Some (mkCall this st) →
  settled st = false →
  instances w !! this = Some db →
  calls (step host disk e w) !! r = Some c' →
  settled (call_state c') = true →
  compileCancellationTokenSource <$> instances (step host disk e w) !! this = Some None.
Proof.
  intros Hr Hst Hdb Hc' Hset.
  destruct (decide (target e = Some r)) as [Htarget|Htarget].
  2: { rewrite (step_calls_elsewhere host disk e w r _ Hr Htarget) in Hc'.
       injection Hc' as <-. simpl in Hset. congruence. }
  assert (Hrlen : r < length (calls w)) by (by eapply lookup_lt_Some).
  assert (Hstay : ∀ (w1 : World) st1,
            calls w1 = calls w → settled st1 = false →
            calls (setCall r this st1 w1) !! r = Some c' → False).
  { intros w1 st1 Hw1 Hst1. simpl. rewrite Hw1, list_lookup_insert_eq by done.
    intros [= <-]. simpl in Hset. congruence. }
  destruct e as [this' src custom|r'|r' item|r' item|r' ev|r' item|r' item|r' ev|r'];
    simpl in Htarget; try done; injection Htarget as ->; simpl in Hc' |- *;
    rewrite Hr in Hc' |- *.
  - destruct st as [t0 cc custom|f|asm|x]; try done;
      try (rewrite Hr in Hc'; injection Hc' as <-; simpl in Hset; congruence).
    unfold spawnBoth in *.
    destruct (if bool_decide (length custom ≠ 0) then custom else arguments cc)
      as [|compExe rest]; [by apply (settle_field _ _ _ w _ db)|].
    rewrite Hdb in Hc' |- *.
    destruct (getCxxFiltExe host disk compExe (cxxFiltExeCache db)) as [[exe|] cache];
      [|by apply (settle_field _ _ _ w _ db)].
    exfalso. refine (Hstay _ _ _ _ Hc'); [simpl; by autorewrite with world|done].
  - destruct st as [t0 cc custom|[t0 c0 x []]|asm|x]; try done;
      try (rewrite Hr in Hc'; injection Hc' as <-; simpl in Hset; congruence).
    unfold relayCxx in *. destruct item as [chunk|].
    + destruct (isCancellationRequested _ w); [by apply (abort_field _ _ _ _ w _ db)|].
      rewrite writeStdin_calls, Hr in Hc'. injection Hc' as <-. simpl in Hset. congruence.
    + exfalso. refine (Hstay _ _ _ _ Hc'); [simpl; by autorewrite with world|done].
  - destruct st as [t0 cc custom|[t0 c0 x []]|asm|x]; try done;
      try (rewrite Hr in Hc'; injection Hc' as <-; simpl in Hset; congruence).
    unfold checkCxx in *. destruct (checkStdErr _ _ _) as [[pc'|[]] ch].
    + exfalso. refine (Hstay _ _ _ _ Hc'); [simpl; by autorewrite with world|done].
    + exfalso. refine (Hstay _ _ _ _ Hc'); [simpl; by autorewrite with world|done].
    + by apply (abort_field _ _ _ _ w _ db).
  - destruct st as [t0 cc custom|[t0 c0 x []]|asm|x]; try done;
      try (rewrite Hr in Hc'; injection Hc' as <-; simpl in Hset; congruence).
    unfold checkCxx in *.
    destruct ev as [code|];
      [|rewrite Hr in Hc'; injection Hc' as <-; simpl in Hset; congruence].
    destruct (checkStdErr _ _ _) as [[pc'|[]] ch].
    + exfalso. refine (Hstay _ _ _ _ Hc'); [simpl; by autorewrite with world|done].
    + exfalso. refine (Hstay _ _ _ _ Hc'); [simpl; by autorewrite with world|done].
    + by apply (abort_field _ _ _ _ w _ db).
  - destruct st as [t0 cc custom|[t0 c0 x []]|asm|x]; try done;
      try (rewrite Hr in Hc'; injection Hc' as <-; simpl in Hset; congruence).
    unfold collectFilt in *. destruct item as [chunk|].
    + destruct (isCancellationRequested _ w); [by apply (abort_field _ _ _ _ w _ db)|].
      exfalso. refine (Hstay _ _ _ _ Hc'); [simpl; by autorewrite with world|done].
    + exfalso. refine (Hstay _ _ _ _ Hc'); [simpl; by autorewrite with world|done].
  - destruct st as [t0 cc custom|[t0 c0 x []]|asm|x]; try done;
      try (rewrite Hr in Hc'; injection Hc' as <-; simpl in Hset; congruence).
    unfold checkFilt in *. destruct (checkStdErr _ _ _) as [[pc'|[]] ch].
    + exfalso. refine (Hstay _ _ _ _ Hc'); [simpl; by autorewrite with world|done].
    + by apply (settle_field _ _ _ w _ db).
    + by apply (abort_field _ _ _ _ w _ db).
  - destruct st as [t0 cc custom|[t0 c0 x []]|asm|x]; try done;
      try (rewrite Hr in Hc'; injection Hc' as <-; simpl in Hset; congruence).
    unfold checkFilt in *. destruct (checkStdErr _ _ _) as [[pc'|[]] ch].
    + exfalso. refine (Hstay _ _ _ _ Hc'); [simpl; by autorewrite with world|done].
    + by apply (settle_field _ _ _ w _ db).
    + by apply (abort_field _ _ _ _ w _ db).
Qed.

Lemma finally_clears_field_witness :
  let w := run Example.host Example.disk
             [Compile Example.db Example.mainUri []; Located 0;
              Compile Example.db Example.mainUri []; Located 1] Example.opened in
  compileCancellationTokenSource <$> instances w !! Example.db = Some (Some 1)
  ∧ compileCancellationTokenSource
      <$> instances (step Example.host Example.disk (CxxStdout 0 (Some (js "main:"))) w)
          !! Example.db
    = Some None.
Proof.
  intros w. split; [vm_compute; reflexivity|].
  apply (finally_clears_field Example.host Example.disk (CxxStdout 0 (Some (js "main:"))) w
           0 Example.db (Relaying (mkFrame 0 0 1 RelayCxx))
           (mkCompilationDatabase (Some 1)
              (mkUri 2 (js "/ws/compile_commands.json") (js "/ws/compile_commands.json"))
              (indexByFile (preprocess [Example.mainEntry]))
              {[ js "/ws/gcc" := js "c++filt" ]} true)
           (mkCall Example.db (Rejected OperationCancelled)));
    vm_compute; reflexivity.
Defined.

(** ** The compiler's command line *)





(** ** The demangler locator *)

(** X20: a found demangler is remembered under the compiler's name, the
    other cache entries stay as they were, and a later request for the
    same compiler is answered from the cache alone, whatever the file
    system has become. *)
Theorem getCxxFiltExe_cached (host : Host) (disk : Disk) (compExe exe : jsstring)
    (cache cache' : gmap jsstring jsstring) :
  getCxxFiltExe host disk compExe cache = (Some exe, cache') →
  cache' !! compExe = Some exe
  ∧ (∀ k, k ≠ compExe → cache' !! k = cache !! k)
  ∧ ∀ host' disk', getCxxFiltExe host' disk' compExe cache' = (Some exe, cache').
Proof.
  unfold getCxxFiltExe. intros Hget.
  destruct (cache !! compExe) as [hit|] eqn:Hhit.
  - injection Hget as -> ->. split; [done|]. split; [done|].
    intros host' disk'. by rewrite Hhit.
  - destruct (findCxxFiltExe host disk compExe) as [found|]; [|done].
    injection Hget as -> <-. split; [by rewrite lookup_insert_eq|].
    split; [intros k Hk; by rewrite lookup_insert_ne|].
    intros host' disk'. by rewrite lookup_insert_eq.
Qed.

Lemma getCxxFiltExe_cached_witness :
  let cache' := {[ js "/usr/bin/gcc-11" := js "c++filt" ]} in
  cache' !! js "/usr/bin/gcc-11" = Some (js "c++filt")
  ∧ (∀ k, k ≠ js "/usr/bin/gcc-11" → cache' !! k = (∅ : gmap jsstring jsstring) !! k)
  ∧ ∀ host' disk',
      getCxxFiltExe host' disk' (js "/usr/bin/gcc-11") cache' = (Some (js "c++filt"), cache').
Proof.
  apply (getCxxFiltExe_cached Example.host Example.disk (js "/usr/bin/gcc-11")
           (js "c++filt") ∅).
  vm_compute. reflexivity.
Defined.

(** X21: the search for the demangler fails in one way only: the
    compiler's path has a directory part and that directory cannot be
    listed.  For a bare compiler name no directory is listed at all:
    [findExecutablePath] answers [undefined] whatever [which] prints, and
    the search goes straight to the guessed path. *)
Theorem findCxxFiltExe_rejects (host : Host) (disk : Disk) (compExe : jsstring) :
  (findCxxFiltExe host disk compExe = None
   ↔ pp_dir (Path_parse host compExe) ≠ []
     ∧ readdir disk (pp_dir (Path_parse host compExe)) = None)
  ∧ findExecutablePath host disk compExe = None
  ∧ (pp_dir (Path_parse host compExe) = [] →
     findCxxFiltExe host disk compExe
     = Some (let guess := Path_join host [pp_dir (Path_parse host compExe);
                                           rewriteName (pp_name (Path_parse host compExe));
                                           pp_ext (Path_parse host compExe)] in
             if existsSync disk guess then guess else cxxfiltExe)).
Proof.
  split; [|split; [done|]].
  - unfold findCxxFiltExe, findExePath, findExecutablePath, checkStdErrOfWhich.
    destruct (pp_dir (Path_parse host compExe)) as [|c d] eqn:Hdir.
    + rewrite bool_decide_eq_true_2 by done. cbn [mbind option_bind].
      split; [done|]. by intros [? _].
    + rewrite bool_decide_eq_false_2 by done.
      destruct (readdir disk (c :: d)) as [files|] eqn:Hread;
        cbn [mbind option_bind fmap option_fmap option_map].
      * split; [|by intros [_ ?]]. destruct (List.find _ files); done.
      * done.
  - intros Hdir. unfold findCxxFiltExe, findExePath, findExecutablePath, checkStdErrOfWhich.
    rewrite Hdir. by rewrite bool_decide_eq_true_2 by done.
Qed.

(** X22: an answer of the search is the resolved path of a listed file
    whose name ends with [c++filt] and the compiler's extension, or the
    path built from the rewritten name, which then exists, or the bare
    [c++filt]. *)
Theorem findCxxFiltExe_answer (host : Host) (disk : Disk) (compExe exe : jsstring) :
  findCxxFiltExe host disk compExe = Some exe →
  let parsed := Path_parse host compExe in
  (∃ dir files f,
      readdir disk dir = Some files ∧ f ∈ files
      ∧ endsWith (cxxfiltExe ++ pp_ext parsed) f = true
      ∧ exe = Path_resolve host dir f)
  ∨ (exe = Path_join host [pp_dir parsed; rewriteName (pp_name parsed); pp_ext parsed]
     ∧ existsSync disk exe = true)
  ∨ exe = cxxfiltExe.
Proof.
  intros Hfind parsed. unfold findCxxFiltExe in Hfind. fold parsed in Hfind.
  assert (Hsearch : ∀ dir found,
            findExePath host disk parsed dir = Some (Some found) →
            ∃ d files f, readdir disk d = Some files ∧ f ∈ files
              ∧ endsWith (cxxfiltExe ++ pp_ext parsed) f = true
              ∧ found = Path_resolve host d f).
  { intros [d|] found Hf; [|done]. unfold findExePath in Hf.
    destruct (readdir disk d) as [files|] eqn:Hread; [|done].
    cbn [mbind option_bind] in Hf. injection Hf as Hf.
    destruct (List.find _ files) as [f|] eqn:Hfound; [|done].
    injection Hf as <-. apply find_some in Hfound as [Hin Hends].
    exists d, files, f. by rewrite list_elem_of_In. }
  set (dir := if bool_decide (length (pp_dir parsed) = 0)
              then findExecutablePath host disk compExe else Some (pp_dir parsed)).
  assert (Hdir : (if bool_decide (length (pp_dir parsed) = 0)
                  then findExePath host disk parsed (findExecutablePath host disk compExe)
                  else findExePath host disk parsed (Some (pp_dir parsed)))
                 = findExePath host disk parsed dir).
  { unfold dir. by destruct (bool_decide _). }
  rewrite Hdir in Hfind.
  destruct (findExePath host disk parsed dir) as [[found|]|] eqn:Hf; [| |done].
  - cbn [mbind option_bind] in Hfind. injection Hfind as <-. left. by eapply Hsearch.
  - cbn [mbind option_bind] in Hfind. injection Hfind as <-. right.
    destruct (existsSync disk _) eqn:Hex; [left|right]; done.
Qed.

Lemma findCxxFiltExe_answer_witness :
  let parsed := Path_parse Example.host (js "/usr/bin/gcc-11") in
  (∃ dir files f,
      readdir Example.disk dir = Some files ∧ f ∈ files
      ∧ endsWith (cxxfiltExe ++ pp_ext parsed) f = true
      ∧ js "c++filt" = Path_resolve Example.host dir f)
  ∨ (js "c++filt"
     = Path_join Example.host [pp_dir parsed; rewriteName (pp_name parsed); pp_ext parsed]
     ∧ existsSync Example.disk (js "c++filt") = true)
  ∨ js "c++filt" = cxxfiltExe.
Proof.
  apply (findCxxFiltExe_answer Example.host Example.disk (js "/usr/bin/gcc-11") (js "c++filt")).
  vm_compute. reflexivity.
Defined.

(** X23: a compiler name in which none of [clang++], [clang], [g++],
    [gcc], [c++] and [cc] occurs comes out of the chain of replacements
    unchanged. *)
Theorem rewriteName_no_fragment (name : jsstring) :
  Forall (λ frag, occursIn frag name = false) compilerFragments →
  rewriteName name = name.
Proof.
  unfold compilerFragments. intros Habs.
  rewrite !Forall_cons in Habs. destruct Habs as (H1 & H2 & H3 & H4 & H5 & H6 & _).
  pose proof (occursIn_false _ _ H1). pose proof (occursIn_false _ _ H2).
  pose proof (occursIn_false _ _ H3). pose proof (occursIn_false _ _ H4).
  pose proof (occursIn_false _ _ H5). pose proof (occursIn_false _ _ H6).
  unfold rewriteName.
  rewrite (replace_absent (js "clang++")) by assumption.
  rewrite (replace_absent (js "clang")) by assumption.
  rewrite (replace_absent (js "g++")) by assumption.
  rewrite (replace_absent (js "gcc")) by assumption.
  rewrite (replace_absent (js "c++")) by assumption.
  by rewrite (replace_absent (js "cc")) by assumption.
Qed.

Lemma rewriteName_no_fragment_witness : rewriteName (js "icpx") = js "icpx".
Proof.
  apply (rewriteName_no_fragment (js "icpx")).
  unfold compilerFragments. repeat constructor.
Defined.

(** ** [pathWithoutExtension] *)

Lemma lastIndexOf_absent (u : N) (s : jsstring) :
  u ∉ s → lastIndexOf u s = (-1)%Z.
Proof.
  induction s as [|c s IH]; [done|]. intros [Hc Hs]%not_elem_of_cons.
  simpl. rewrite (IH Hs). simpl.
  destruct (N.eqb_spec c u) as [->|]; done.
Qed.

Lemma lastIndexOf_last (u : N) (pre post : jsstring) :
  u ∉ post → lastIndexOf u (pre ++ u :: post) = Z.of_nat (length pre).
Proof.
  intros Hpost. induction pre as [|c pre IH]; simpl.
  - rewrite (lastIndexOf_absent _ _ Hpost). simpl. by rewrite N.eqb_refl.
  - rewrite IH. destruct (Z.leb_spec 0 (Z.of_nat (length pre))); lia.
Qed.

Lemma sliceFrom_prefix (s : jsstring) (n : nat) :
  n ≤ length s → sliceFrom s 0 (Z.of_nat n) = take n s.
Proof.
  intros Hn. unfold sliceFrom, relativeIndex.
  destruct (Z.ltb_spec 0 0); [lia|]. destruct (Z.ltb_spec (Z.of_nat n) 0); [lia|].
  replace (Z.to_nat (Z.min 0 (Z.of_nat (length s)))) with 0 by lia.
  rewrite drop_0. f_equal. lia.
Qed.

Lemma sliceFrom_but_last (s : jsstring) :
  sliceFrom s 0 (-1) = take (length s - 1) s.
Proof.
  unfold sliceFrom, relativeIndex.
  destruct (Z.ltb_spec 0 0); [lia|]. destruct (Z.ltb_spec (-1) 0); [|lia].
  replace (Z.to_nat (Z.min 0 (Z.of_nat (length s)))) with 0 by lia.
  rewrite drop_0. f_equal. lia.
Qed.

(** X24: for a path whose last dot is followed by [ext], the result is the
    part before that dot; when nothing stands before the dot, as in
    [.clang-format], the path is returned as it is. *)
Theorem pathWithoutExtension_dot (stem ext : jsstring) :
  (46%N : N) ∉ ext →
  pathWithoutExtension (stem ++ 46%N :: ext) = if stem is [] then 46%N :: ext else stem.
Proof.
  intros Hext. unfold pathWithoutExtension.
  rewrite (lastIndexOf_last _ _ _ Hext), sliceFrom_prefix by (rewrite length_app; lia).
  rewrite take_app_length. by destruct stem.
Qed.

Lemma pathWithoutExtension_dot_witness :
  pathWithoutExtension (js "/ws/main.test" ++ 46%N :: js "cpp") = js "/ws/main.test"
  ∧ pathWithoutExtension ([] ++ 46%N :: js "clang-format") = 46%N :: js "clang-format".
Proof.
  split.
  - apply (pathWithoutExtension_dot (js "/ws/main.test") (js "cpp")).
    vm_compute. intros Hin. repeat (apply elem_of_cons in Hin as [Hin|Hin]; [discriminate Hin|]).
    by apply elem_of_nil in Hin.
  - apply (pathWithoutExtension_dot [] (js "clang-format")).
    vm_compute. intros Hin. repeat (apply elem_of_cons in Hin as [Hin|Hin]; [discriminate Hin|]).
    by apply elem_of_nil in Hin.
Defined.

(** X25: a path without any dot loses its last code unit, since
    [lastIndexOf] answers [-1] and [slice(0, -1)] drops one unit; only a
    path of at most one unit is returned as it is. *)
Theorem pathWithoutExtension_no_dot (path : jsstring) :
  (46%N : N) ∉ path →
  pathWithoutExtension path
  = if bool_decide (length path ≤ 1) then path else take (length path - 1) path.
Proof.
  intros Hdot. unfold pathWithoutExtension.
  rewrite (lastIndexOf_absent _ _ Hdot), sliceFrom_but_last.
  case_bool_decide as Hlen.
  - destruct path as [|c [|c' path]]; simpl in *; [done|done|lia].
  - destruct path as [|c [|c' path]]; simpl in *; [lia|lia|done].
Qed.

Lemma pathWithoutExtension_no_dot_witness :
  pathWithoutExtension (js "/ws/Makefile")
  = if bool_decide (length (js "/ws/Makefile") ≤ 1) then js "/ws/Makefile"
    else take (length (js "/ws/Makefile") - 1) (js "/ws/Makefile").
Proof.
  apply (pathWithoutExtension_no_dot (js "/ws/Makefile")).
  vm_compute. intros Hin. repeat (apply elem_of_cons in Hin as [Hin|Hin]; [discriminate Hin|]).
  by apply elem_of_nil in Hin.
Defined.

(** ** [resolvePath] *)

Lemma replaceVariables_plain (callback : jsstring → jsstring → jsstring) (s : jsstring) :
  (36%N : N) ∉ s → replaceVariables callback 0 s = s.
Proof.
  induction s as [|c s IH]; [done|]. intros [Hc Hs]%not_elem_of_cons.
  cbn [replaceVariables].
  assert (Hno : matchVariable (c :: s) = None).
  { unfold matchVariable. destruct c as [|p]; [done|].
    destruct (decide (N.pos p = 36%N)) as [Heq|Hne]; [done|].
    repeat (destruct p as [p|p|]; try done). }
  rewrite Hno. f_equal. by apply IH.
Qed.

Lemma replaceVariables_skip (callback : jsstring → jsstring → jsstring)
    (passed s : jsstring) :
  replaceVariables callback (length passed) (passed ++ s) = replaceVariables callback 0 s.
Proof.
  induction passed as [|c passed IH]; [by destruct s|]. simpl. apply IH.
Qed.

Lemma closing_group (varName post : jsstring) :
  (125%N : N) ∉ varName → Forall (λ u, isLineTerminator u = false) varName →
  closing (varName ++ 125%N :: post) = Some varName.
Proof.
  induction varName as [|c varName IH]; [done|].
  intros [Hc Hs]%not_elem_of_cons [Hlt Hrest]%Forall_cons. simpl.
  destruct (N.eqb_spec c 125) as [->|_]; [done|].
  rewrite Hlt, IH by done. done.
Qed.

Lemma replaceVariables_prefix (callback : jsstring → jsstring → jsstring)
    (pre s : jsstring) :
  (36%N : N) ∉ pre →
  replaceVariables callback 0 (pre ++ s) = pre ++ replaceVariables callback 0 s.
Proof.
  induction pre as [|c pre IH]; [done|]. intros [Hc Hs]%not_elem_of_cons.
  cbn [app replaceVariables].
  assert (Hno : matchVariable (c :: pre ++ s) = None).
  { unfold matchVariable. destruct c as [|p]; [done|].
    destruct (decide (N.pos p = 36%N)) as [Heq|Hne]; [done|].
    repeat (destruct p as [p|p|]; try done). }
  rewrite Hno. f_equal. by apply IH.
Qed.

Lemma closing_absent (s : jsstring) : (125%N : N) ∉ s → closing s = None.
Proof.
  induction s as [|c s IH]; [done|]. intros [Hc Hs]%not_elem_of_cons. simpl.
  destruct (N.eqb_spec c 125) as [->|_]; [done|].
  rewrite (IH Hs). by destruct (isLineTerminator c).
Qed.

Lemma replaceVariables_unclosed (callback : jsstring → jsstring → jsstring) (s : jsstring) :
  (125%N : N) ∉ s → replaceVariables callback 0 s = s.
Proof.
  induction s as [|c s IH]; [done|]. intros Hcs.
  pose proof Hcs as [Hc Hs]%not_elem_of_cons. cbn [replaceVariables].
  assert (Hno : matchVariable (c :: s) = None).
  { unfold matchVariable. destruct c as [|p]; [done|].
    destruct s as [|c' s]; [by repeat (destruct p as [p|p|]; try done)|].
    assert (Hrest : closing s = None).
    { apply closing_absent. by apply not_elem_of_cons in Hs as [_ ?]. }
    rewrite Hrest. repeat (destruct p as [p|p|]; try done);
      destruct c' as [|q]; try done; repeat (destruct q as [q|q|]; try done). }
  rewrite Hno. f_equal. by apply IH.
Qed.

(** X26: a path in which no [$] occurs, or no [}], passes through the
    substitution untouched: the result is [Path.normalize(path)] when the
    source file lies in a workspace folder, and the call throws when it
    lies in none, although no variable is to be resolved. *)
Theorem resolvePath_plain (host : Host) (ws : Workspace) (path : jsstring) (srcUri : Uri) :
  (36%N : N) ∉ path ∨ (125%N : N) ∉ path →
  resolvePath host ws path srcUri
  = (λ _, Path_normalize ws path) <$> getWorkspaceFolder ws srcUri.
Proof.
  intros Hplain. unfold resolvePath.
  destruct (getWorkspaceFolder ws srcUri) as [workspacePath|]; [|done].
  cbn [mbind option_bind fmap option_fmap option_map].
  destruct Hplain; [by rewrite replaceVariables_plain|by rewrite replaceVariables_unclosed].
Qed.

Lemma replaceVariables_at_match (callback : jsstring → jsstring → jsstring)
    (varName post : jsstring) :
  (125%N : N) ∉ varName →
  Forall (λ u, isLineTerminator u = false) varName →
  replaceVariables callback 0 (js "${" ++ varName ++ js "}" ++ post)
  = callback (js "${" ++ varName ++ js "}") varName ++ replaceVariables callback 0 post.
Proof.
  intros Hname Hline.
  change (js "${" ++ varName ++ js "}" ++ post)
    with (36%N :: 123%N :: varName ++ 125%N :: post).
  cbn [replaceVariables matchVariable]. rewrite closing_group by done. f_equal.
  replace (length varName + 2) with (S (length (varName ++ [125%N])))
    by (rewrite length_app; simpl; lia).
  rewrite (cons_middle 125%N varName post), (assoc_L (++)).
  apply replaceVariables_skip.
Qed.

(** X27: the first [${...}] of a string, read from the first [${] after
    which a [}] follows on the same line up to the first such [}], is
    handed to the callback once, and the search goes on behind it: what the
    callback returned is not searched again. *)
Theorem replaceVariables_first (callback : jsstring → jsstring → jsstring)
    (pre varName post : jsstring) :
  (36%N : N) ∉ pre →
  (125%N : N) ∉ varName →
  Forall (λ u, isLineTerminator u = false) varName →
  replaceVariables callback 0 (pre ++ js "${" ++ varName ++ js "}" ++ post)
  = pre ++ callback (js "${" ++ varName ++ js "}") varName
        ++ replaceVariables callback 0 post.
Proof.
  intros Hpre Hname Hline.
  rewrite replaceVariables_prefix by done.
  by rewrite replaceVariables_at_match by done.
Qed.

Lemma variables_other (host : Host) (ws : Workspace) (workspacePath path varName : jsstring) :
  varName ∉ variableNames →
  variables host ws workspacePath path varName = inheritedProperty ws varName.
Proof.
  unfold variableNames. intros Hother. rewrite !not_elem_of_cons in Hother.
  destruct Hother as (? & ? & ? & ? & ? & ? & _).
  unfold variables. by rewrite !decide_False by done.
Qed.

(** X28: [${workspaceFolder}] between two parts without [$] is replaced
    by the folder of the source file, and the folder's own text is not
    searched for variables.  With both parts empty this is the default of
    the [compilationDirectory] setting. *)
Theorem resolvePath_workspaceFolder (host : Host) (ws : Workspace) (pre post : jsstring)
    (srcUri : Uri) :
  (36%N : N) ∉ pre →
  (36%N : N) ∉ post →
  resolvePath host ws (pre ++ js "${workspaceFolder}" ++ post) srcUri
  = (λ workspacePath, Path_normalize ws (pre ++ workspacePath ++ post))
      <$> getWorkspaceFolder ws srcUri.
Proof.
  intros Hpre Hpost. unfold resolvePath.
  destruct (getWorkspaceFolder ws srcUri) as [workspacePath|]; [|done].
  cbn [mbind option_bind fmap option_fmap option_map]. do 2 f_equal.
  change (js "${workspaceFolder}" ++ post)
    with (js "${" ++ js "workspaceFolder" ++ js "}" ++ post).
  rewrite replaceVariables_prefix by done.
  rewrite replaceVariables_at_match.
  - by rewrite replaceVariables_plain.
  - vm_compute. intros Hin.
    repeat (apply elem_of_cons in Hin as [Hin|Hin]; [discriminate Hin|]).
    by apply elem_of_nil in Hin.
  - vm_compute. repeat constructor.
Qed.

(** X29: a name that is none of the six variables is looked up in
    [Object.prototype]: where a member of that name exists, as for
    [constructor], its text is substituted; only otherwise is the
    reference left as written. *)
Theorem resolvePath_other_name (host : Host) (ws : Workspace) (pre varName post : jsstring)
    (srcUri : Uri) :
  (36%N : N) ∉ pre →
  (36%N : N) ∉ post →
  (125%N : N) ∉ varName →
  Forall (λ u, isLineTerminator u = false) varName →
  varName ∉ variableNames →
  resolvePath host ws (pre ++ js "${" ++ varName ++ js "}" ++ post) srcUri
  = (λ _, Path_normalize ws
            (pre ++ default (js "${" ++ varName ++ js "}") (inheritedProperty ws varName)
                 ++ post))
      <$> getWorkspaceFolder ws srcUri.
Proof.
  intros Hpre Hpost Hname Hline Hother. unfold resolvePath.
  destruct (getWorkspaceFolder ws srcUri) as [workspacePath|]; [|done].
  cbn [mbind option_bind fmap option_fmap option_map]. do 2 f_equal.
  rewrite replaceVariables_prefix, replaceVariables_at_match by done.
  rewrite variables_other by done. rewrite replaceVariables_plain by done.
  by destruct (inheritedProperty ws varName).
Qed.

Ltac absent :=
  vm_compute;
  let Hin := fresh "Hin" in
  intros Hin;
  repeat (apply elem_of_cons in Hin as [Hin|Hin]; [discriminate Hin|]);
  by apply elem_of_nil in Hin.

Lemma resolvePath_plain_witness :
  resolvePath Example.host ExampleWorkspace.workspace (js "/ws/build/$") Example.mainUri
  = (λ _, Path_normalize ExampleWorkspace.workspace (js "/ws/build/$"))
      <$> getWorkspaceFolder ExampleWorkspace.workspace Example.mainUri.
Proof.
  apply (resolvePath_plain Example.host ExampleWorkspace.workspace (js "/ws/build/$")
           Example.mainUri).
  right. absent.
Defined.

Lemma replaceVariables_first_witness :
  replaceVariables (λ _ varName, varName) 0 (js "out/" ++ js "${" ++ js "a${b" ++ js "}" ++ js "/${c}")
  = js "out/" ++ js "a${b" ++ replaceVariables (λ _ varName, varName) 0 (js "/${c}").
Proof.
  apply (replaceVariables_first (λ _ varName, varName) (js "out/") (js "a${b") (js "/${c}")).
  - absent.
  - absent.
  - vm_compute. repeat constructor.
Defined.

Lemma resolvePath_workspaceFolder_witness :
  resolvePath Example.host ExampleWorkspace.workspace
              ([] ++ js "${workspaceFolder}" ++ js "/build") Example.mainUri
  = (λ workspacePath, Path_normalize ExampleWorkspace.workspace ([] ++ workspacePath ++ js "/build"))
      <$> getWorkspaceFolder ExampleWorkspace.workspace Example.mainUri.
Proof.
  apply (resolvePath_workspaceFolder Example.host ExampleWorkspace.workspace [] (js "/build")
           Example.mainUri).
  - absent.
  - absent.
Defined.

Lemma resolvePath_other_name_witness :
  resolvePath Example.host ExampleWorkspace.workspace
              (js "/opt/" ++ js "${" ++ js "constructor" ++ js "}" ++ js "/build") Example.mainUri
  = (λ _, Path_normalize ExampleWorkspace.workspace
            (js "/opt/"
             ++ default (js "${" ++ js "constructor" ++ js "}")
                        (inheritedProperty ExampleWorkspace.workspace (js "constructor"))
             ++ js "/build"))
      <$> getWorkspaceFolder ExampleWorkspace.workspace Example.mainUri.
Proof.
  apply (resolvePath_other_name Example.host ExampleWorkspace.workspace (js "/opt/")
           (js "constructor") (js "/build") Example.mainUri).
  - absent.
  - absent.
  - absent.
  - vm_compute. repeat constructor.
  - absent.
Defined.

Lemma splitWhitespace_tokens_are_slices_witness :
  js "-O2" ≠ [] ∧ ∃ a b, js "-O2" = slice (js "gcc -O2 main.cpp") a b.
Proof.
  apply (splitWhitespace_tokens_are_slices (js "gcc -O2 main.cpp") (js "-O2")).
  vm_compute. right. left.
Defined.

(** ** One active token for each instance *)


























